(** * solver_bot: a shallow embedding of [bot.py]

    The bot relays chat messages to a generative backend and sends the
    formatted answer back.  This development embeds

    - Python's [str] operations used by the bot ([strip], [in],
      [replace], [join]) over lists of code points;
    - [format_answer] and [to_jpeg];
    - the chat handlers [solve_cmd], [handle_text] and [handle_image],
      written in a small state-and-exception monad whose state is the
      log of the calls made to the chat transport and to the backend.

    and proves the properties of the specification about them. *)

From Stdlib Require Import List NArith ZArith Bool Lia String Ascii QArith.
From Equations Require Import Equations.
Import ListNotations.
Close Scope Q_scope.

Set Implicit Arguments.

(** * Python strings *)

Module Py.

(** A [str] is a sequence of Unicode code points; [len] counts them. *)
Abbreviation char := N (only parsing).
Definition str := list char.

(** ASCII literals of the source. *)
Definition lit (s : string) : str :=
  List.map N_of_ascii (list_ascii_of_string s).

Definition len (s : str) : nat := List.length s.

Local Open Scope N_scope.

(** [str.isspace] on one code point: the characters [str.strip()]
    removes (CPython's [_PyUnicode_IsWhitespace]). *)
Definition isspace (c : char) : bool :=
  ((0x09 <=? c) && (c <=? 0x0D)) || ((0x1C <=? c) && (c <=? 0x20))
  || (c =? 0x85) || (c =? 0xA0) || (c =? 0x1680)
  || ((0x2000 <=? c) && (c <=? 0x200A))
  || (c =? 0x2028) || (c =? 0x2029) || (c =? 0x202F) || (c =? 0x205F)
  || (c =? 0x3000).

Local Close Scope N_scope.

Fixpoint lstrip (s : str) : str :=
  match s with
  | [] => []
  | c :: s' => if isspace c then lstrip s' else s
  end.

Definition rstrip (s : str) : str := rev (lstrip (rev s)).

(** [s.strip()] *)
Definition strip (s : str) : str := rstrip (lstrip s).

(** [s.startswith(old)] *)
Fixpoint startswith (s old : str) {struct old} : bool :=
  match old, s with
  | [], _ => true
  | _ :: _, [] => false
  | o :: old', c :: s' => N.eqb c o && startswith s' old'
  end.

(** [old in s] *)
Fixpoint contains (old s : str) : bool :=
  startswith s old ||
  match s with
  | [] => false
  | _ :: s' => contains old s'
  end.

(** [s.replace("", new)]: [new] before every character and at the end. *)
Fixpoint interleave (new s : str) : str :=
  match s with
  | [] => new
  | c :: s' => new ++ c :: interleave new s'
  end.

(** [s.replace(old, new)]: the occurrences of [old] found by a scan from
    the left, none overlapping the one before, are replaced by [new]. *)
Equations? replace (s old new : str) : str by wf (List.length s) lt :=
  replace s [] new := interleave new s;
  replace [] (o :: old) new := [];
  replace (c :: s) (o :: old) new with startswith (c :: s) (o :: old) => {
    | true := new ++ replace (skipn (List.length old) s) (o :: old) new;
    | false := c :: replace s (o :: old) new }.
Proof.
  rewrite length_skipn. lia.
Qed.

(** [sep.join(xs)] *)
Fixpoint join (sep : str) (xs : list str) : str :=
  match xs with
  | [] => []
  | [x] => x
  | x :: xs' => x ++ sep ++ join sep xs'
  end.

End Py.

Import Py.

(** ** Unfolding [replace] and the length of its result

    These facts are needed to define the loop of [format_answer], which
    terminates because every round shortens the text. *)

Lemma replace_cons (c : char) (s : str) (o : char) (old new : str) :
  replace (c :: s) (o :: old) new =
  if startswith (c :: s) (o :: old)
  then new ++ replace (skipn (List.length old) s) (o :: old) new
  else c :: replace s (o :: old) new.
Proof.
  simp replace. destruct (startswith (c :: s) (o :: old)); reflexivity.
Qed.

Lemma replace_nil (o : char) (old new : str) : replace [] (o :: old) new = [].
Proof. simp replace. reflexivity. Qed.

Lemma str_length_ind (P : str -> Prop) :
  (forall s, (forall t, List.length t < List.length s -> P t) -> P s) ->
  forall s, P s.
Proof.
  intros step s. remember (List.length s) as n eqn:Hn.
  revert s Hn. induction n as [n IH] using lt_wf_ind.
  intros s ->. apply step. intros t Ht. exact (IH _ Ht t eq_refl).
Qed.

Lemma startswith_app (s old : str) :
  startswith s old = true -> s = old ++ skipn (List.length old) s.
Proof.
  revert s. induction old as [|o old IH]; intros [|c s] H; simpl in *;
    try reflexivity; try discriminate.
  apply andb_prop in H as [Hc Hs]. apply N.eqb_eq in Hc as ->.
  f_equal. exact (IH _ Hs).
Qed.

Lemma startswith_length (s old : str) :
  startswith s old = true -> List.length old <= List.length s.
Proof.
  intros H. apply startswith_app in H.
  apply (f_equal (@List.length _)) in H. rewrite length_app in H. lia.
Qed.

Lemma replace_length_le (old new s : str) :
  old <> [] -> List.length new <= List.length old ->
  List.length (replace s old new) <= List.length s.
Proof.
  intros Hold Hlen. destruct old as [|o old]; [congruence|]. clear Hold.
  induction s as [s IH] using str_length_ind.
  destruct s as [|c s]; [rewrite replace_nil; simpl; lia|].
  rewrite replace_cons.
  destruct (startswith (c :: s) (o :: old)) eqn:Hsw.
  - apply startswith_length in Hsw. simpl in Hsw, Hlen.
    assert (Hk : List.length (skipn (List.length old) s) < List.length (c :: s))
      by (rewrite length_skipn; simpl; lia).
    specialize (IH _ Hk). rewrite length_skipn in IH.
    rewrite length_app. simpl. lia.
  - simpl. assert (Hk : List.length s < List.length (c :: s)) by (simpl; lia).
    specialize (IH _ Hk). lia.
Qed.

Lemma contains_cons (old : str) (c : char) (s : str) :
  contains old (c :: s) = startswith (c :: s) old || contains old s.
Proof. reflexivity. Qed.

Lemma replace_length_lt (old new s : str) :
  List.length new < List.length old -> contains old s = true ->
  List.length (replace s old new) < List.length s.
Proof.
  intros Hlen. destruct old as [|o old]; [simpl in Hlen; lia|].
  induction s as [|c s IH]; intros Hin.
  - simpl in Hin. discriminate.
  - rewrite replace_cons. rewrite contains_cons in Hin.
    destruct (startswith (c :: s) (o :: old)) eqn:Hsw.
    + pose proof (startswith_length _ _ Hsw) as Hl. simpl in Hl, Hlen.
      pose proof (@replace_length_le (o :: old) new (skipn (List.length old) s))
        as Hle.
      rewrite length_skipn in Hle. rewrite length_app. simpl in *.
      assert (List.length (replace (skipn (List.length old) s) (o :: old) new)
              <= List.length s - List.length old)
        by (apply Hle; [discriminate | lia]).
      lia.
    + simpl in Hin. specialize (IH Hin). simpl. lia.
Qed.

(** * The answer formatter *)

Definition inspect {A : Type} (a : A) : {b : A | a = b} := exist _ a eq_refl.

(** The three bullet glyphs and the texts of the blank-line loop. *)
Definition bullet : str := [0x2022%N].
Definition black_circle : str := [0x25CF%N].
Definition small_square : str := [0x25AA%N].
Definition nl : char := 0x0A%N.

(** [while "\n\n\n" in ans: ans = ans.replace("\n\n\n", "\n\n")] *)
Equations? clean_blank_lines (ans : str) : str by wf (List.length ans) lt :=
  clean_blank_lines ans with inspect (contains [nl; nl; nl] ans) => {
    | exist _ true _ := clean_blank_lines (replace ans [nl; nl; nl] [nl; nl]);
    | exist _ false _ := ans }.
Proof.
  apply replace_length_lt; [simpl; lia | assumption].
Qed.

Definition format_answer (ans : str) : str :=
  let ans := strip ans in
  let ans := replace ans bullet (lit "-") in
  let ans := replace ans black_circle (lit "-") in
  let ans := replace ans small_square (lit "-") in
  clean_blank_lines ans.

(** * Exceptions *)

(** A raised exception is an instance of [Exception] (what an
    [except Exception] clause catches) or of [BaseException] only
    ([KeyboardInterrupt], [SystemExit], [asyncio.CancelledError]). *)
Inductive exn : Type :=
| Exception (what : string)
| BaseException (what : string).

Inductive result (A : Type) : Type :=
| Return (a : A)
| Raise (e : exn).
Arguments Return {A} a.
Arguments Raise {A} e.

Definition result_bind {A B : Type} (r : result A) (k : A -> result B)
  : result B :=
  match r with
  | Return a => k a
  | Raise e => Raise e
  end.

(** [try: body / except Exception: handler] without side effects. *)
Definition result_try {A : Type} (body : result A) (handler : exn -> result A)
  : result A :=
  match body with
  | Raise (Exception what) => handler (Exception what)
  | r => r
  end.

Declare Scope result_scope.
Delimit Scope result_scope with result.
Notation "x <- r ;; k" := (result_bind r (fun x => k))
  (at level 61, r at next level, right associativity) : result_scope.

(** * The chat transport, the backend and the image library *)

Definition bytes := list Byte.byte.

(** What the handlers read of an update.  An [Update] carries a message:
    [update.message] is not [None]. *)
Record PhotoSize : Type := { file_id : str }.
Record File : Type := { file_path : str }.
(** [chat.id] and [chat.type] *)
Record Chat : Type := { chat_id : Z; chat_type : str }.
(** [message.text] is [None] when the message has no text. *)
Record Message : Type := {
  text : option str;
  chat : Chat;
  photo : list PhotoSize
}.
Record Update : Type := { message : Message; effective_chat : Chat }.
(** [context.args]: the words after the command. *)
Record Context : Type := { args : list str }.

(** A content part of a request to the backend: a text, or what
    [Part.from_bytes(data=..., mime_type=...)] builds. *)
Inductive part : Type :=
| Text (s : str)
| from_bytes (data : bytes) (mime_type : str).

(** The source's [temperature=0.2] is kept as the decimal it writes. *)
Record GenerateContentConfig : Type := {
  max_output_tokens : Z;
  temperature : Q
}.

(** The calls a handler makes outside the process. *)
Inductive call : Type :=
| reply_text (msg : str)
| send_chat_action (chat : Z) (action : str)
| generate_content (model : str) (contents : list part)
    (config : GenerateContentConfig)
| get_file (p : PhotoSize)
| download_as_bytearray (f : File)
| print (label : str) (e : exn).

(** A call in the log, with how it ended. *)
Inductive entry : Type :=
| Returned (c : call)
| Raised (c : call) (e : exn).

Definition log := list entry.

Definition call_of (x : entry) : call :=
  match x with
  | Returned c => c
  | Raised c _ => c
  end.

(** The calls made, in order. *)
Definition calls (l : log) : list call := List.map call_of l.

(** The messages delivered to the user: the replies that returned. *)
Fixpoint replies (l : log) : list str :=
  match l with
  | [] => []
  | Returned (reply_text msg) :: l' => msg :: replies l'
  | _ :: l' => replies l'
  end.

(** The contents of the requests made to the generative backend. *)
Fixpoint backend_calls (l : log) : list (list part) :=
  match l with
  | [] => []
  | x :: l' =>
      match call_of x with
      | generate_content _ contents _ => contents :: backend_calls l'
      | _ => backend_calls l'
      end
  end.

(** The world outside: how each call ends, given the calls made so far.
    The text of a response is [None] when the response has no text.
    [on_print] is the console: [print] raises when the failure cannot be
    written ([UnicodeEncodeError], [OSError] on a closed stdout).  The
    image library is the part of PIL that [to_jpeg] uses; its functions
    have no effect on the log. *)
Record World : Type := {
  on_reply_text : log -> str -> result unit;
  on_send_chat_action : log -> Z -> str -> result unit;
  on_generate_content :
    log -> str -> list part -> GenerateContentConfig -> result (option str);
  on_get_file : log -> PhotoSize -> result File;
  on_download_as_bytearray : log -> File -> result bytes;
  on_print : log -> str -> exn -> result unit;
  Image : Type;
  Image_open : bytes -> result Image;
  Image_convert : Image -> str -> result Image;
  Image_save : Image -> str -> result bytes
}.

(** * The handler monad: the log as state, and exceptions *)

Definition M (A : Type) : Type := log -> result A * log.

Definition ret {A : Type} (a : A) : M A := fun l => (Return a, l).

Definition bind {A B : Type} (m : M A) (k : A -> M B) : M B :=
  fun l =>
    match m l with
    | (Return a, l') => k a l'
    | (Raise e, l') => (Raise e, l')
    end.

(** A computation without effect on the log. *)
Definition lift {A : Type} (r : result A) : M A := fun l => (r, l).

(** [try: body / except Exception as e: handler e] *)
Definition try_except {A : Type} (body : M A) (handler : exn -> M A) : M A :=
  fun l =>
    match body l with
    | (Raise (Exception what), l') => handler (Exception what) l'
    | r => r
    end.

(** An outside call: the world decides how it ends, the log records it. *)
Definition perform {A : Type} (c : call) (outcome : log -> result A) : M A :=
  fun l =>
    match outcome l with
    | Return a => (Return a, l ++ [Returned c])
    | Raise e => (Raise e, l ++ [Raised c e])
    end.

Declare Scope handler_scope.
Delimit Scope handler_scope with handler.
Notation "x <- m ;; k" := (bind m (fun x => k))
  (at level 61, m at next level, right associativity) : handler_scope.
Notation "m ;; k" := (bind m (fun _ => k))
  (at level 61, right associativity) : handler_scope.

(** A handler is run on the empty log of its event. *)
Definition run {A : Type} (m : M A) : result A * log := m [].

(** * The bot *)

Definition MODEL : str := lit "gemini-2.0-flash".

(** The master prompt, after its [.strip()]. *)
Definition PROMPT : str :=
  let arrow : str := [0x2192%N] in
  let dash : str := [0x2013%N] in
  join [nl]
    [ lit "You are an exam-solving AI.";
      [];
      lit "Your task:";
      lit "- Extract the questions.";
      lit "- Detect the marks (1m, 2m, 5m, 10m, 15m).";
      lit "- Answer strictly according to marks.";
      [];
      lit "Formatting Rules:";
      lit "- 1 mark " ++ arrow ++ lit " One-line answer.";
      lit "- 2 marks " ++ arrow ++ lit " 2" ++ dash ++ lit "3 lines.";
      lit "- 5 marks " ++ arrow ++ lit " Medium answer (8" ++ dash
        ++ lit "12 lines).";
      lit "- 10" ++ dash ++ lit "15 marks " ++ arrow
        ++ lit " Detailed long answer with points.";
      lit "- Maintain numbering.";
      lit "- No greetings.";
      lit "- No extra sentences.";
      lit "- Only answers." ].

Definition config : GenerateContentConfig :=
  {| max_output_tokens := 4000; temperature := (2 # 10)%Q |}.

(** [format_answer] as the handlers call it, on [response.text]: on
    [None] the first line, [ans.strip()], raises [AttributeError]. *)
Definition format_answer_of (ans : option str) : result str :=
  match ans with
  | Some s => Return (format_answer s)
  | None => Raise (Exception "AttributeError")
  end.

(** [xs[-1]] *)
Definition last_item {A : Type} (xs : list A) : result A :=
  match rev xs with
  | x :: _ => Return x
  | [] => Raise (Exception "IndexError")
  end.

(** [a == b] on texts, and [x in [a, b, ...]] *)
Fixpoint str_eqb (a b : str) : bool :=
  match a, b with
  | [], [] => true
  | x :: a', y :: b' => N.eqb x y && str_eqb a' b'
  | _, _ => false
  end.

Definition in_list (x : str) (xs : list str) : bool := existsb (str_eqb x) xs.

Section Bot.

Variable w : World.
(** The bot's handle, without the [@]. *)
Variable BOT_USERNAME : str.

Local Open Scope handler_scope.

Definition to_jpeg (img_bytes : bytes) : result bytes :=
  result_try
    (img <- Image_open w img_bytes ;;
     rgb <- Image_convert w img (lit "RGB") ;;
     Image_save w rgb (lit "JPEG"))%result
    (fun _ => Return img_bytes).

Definition solve_text (text : str) : M (option str) :=
  let contents := [Text PROMPT; Text text] in
  perform (generate_content MODEL contents config)
    (fun l => on_generate_content w l MODEL contents config).

Definition solve_image (img_bytes : bytes) : M (option str) :=
  img_bytes <- lift (to_jpeg img_bytes) ;;
  let image_part := from_bytes img_bytes (lit "image/jpeg") in
  let contents :=
    [ image_part; Text PROMPT;
      Text (lit "Extract the text from this question paper image and answer according to marks.") ] in
  perform (generate_content MODEL contents config)
    (fun l => on_generate_content w l MODEL contents config).

Definition do_reply_text (msg : str) : M unit :=
  perform (reply_text msg) (fun l => on_reply_text w l msg).

Definition do_send_chat_action (chat : Z) (action : str) : M unit :=
  perform (send_chat_action chat action)
    (fun l => on_send_chat_action w l chat action).

Definition start (update : Update) (context : Context) : M unit :=
  do_reply_text
    (lit "Send text or image of your question paper." ++ [nl]
     ++ lit "In groups: mention me @" ++ BOT_USERNAME
     ++ lit " or use /solve.").

Definition solve_cmd (update : Update) (context : Context) : M unit :=
  let text := join (lit " ") (args context) in
  match text with
  | [] => do_reply_text (lit "Usage: /solve <questions>")
  | _ :: _ =>
      do_send_chat_action (chat_id (effective_chat update)) (lit "typing") ;;
      ans <- solve_text text ;;
      formatted <- lift (format_answer_of ans) ;;
      do_reply_text formatted
  end.

(** [f"@{BOT_USERNAME}"] *)
Definition mention : str := lit "@" ++ BOT_USERNAME.

(** [text or ""] *)
Definition or_empty (text : option str) : str :=
  match text with
  | Some t => t
  | None => []
  end.

Definition handle_text (update : Update) (context : Context) : M unit :=
  let text := or_empty (text (message update)) in
  let answer (text : str) : M unit :=
    do_send_chat_action (chat_id (effective_chat update)) (lit "typing") ;;
    ans <- solve_text text ;;
    formatted <- lift (format_answer_of ans) ;;
    do_reply_text formatted in
  (* Only respond in group when mentioned *)
  if in_list (chat_type (chat (message update)))
       [lit "group"; lit "supergroup"]
  then
    if negb (contains mention text) then ret tt
    else answer (strip (replace text mention []))
  else answer text.

(** The [try] block of [handle_image]. *)
Definition handle_image_try (update : Update) (context : Context) : M unit :=
  photo <- lift (last_item (photo (message update))) ;;
  file <- perform (get_file photo) (fun l => on_get_file w l photo) ;;
  img_bytes <- perform (download_as_bytearray file)
                 (fun l => on_download_as_bytearray w l file) ;;
  do_send_chat_action (chat_id (effective_chat update)) (lit "typing") ;;
  ans <- solve_image img_bytes ;;
  formatted <- lift (format_answer_of ans) ;;
  do_reply_text formatted.

Definition handle_image (update : Update) (context : Context) : M unit :=
  try_except (handle_image_try update context)
    (fun e =>
       perform (print (lit "IMAGE ERROR:") e)
         (fun l => on_print w l (lit "IMAGE ERROR:") e) ;;
       do_reply_text (lit "Image processing failed.")).

End Bot.

(** * Notions used in the statements *)

(** [old] occurs in [s]. *)
Definition substring (old s : str) : Prop :=
  exists pre post, s = pre ++ old ++ post.

(** The text is empty or starts with a character that is not white space. *)
Definition head_ok (s : str) : bool :=
  match s with
  | [] => true
  | c :: _ => negb (isspace c)
  end.

(** Nothing to strip at either end. *)
Definition stripped (s : str) : Prop :=
  head_ok s = true /\ head_ok (rev s) = true.

Definition hyphen : char := 0x2D%N.

(** The glyph [b] is not in the text. *)
Definition glyph_free (b : char) (s : str) : Prop := ~ In b s.

(** What holds of every text [format_answer] returns: nothing to strip,
    none of the three glyphs, no three newlines in a row. *)
Record formatted (s : str) : Prop := {
  fmt_stripped : stripped s;
  fmt_bullet : glyph_free 0x2022%N s;
  fmt_black_circle : glyph_free 0x25CF%N s;
  fmt_small_square : glyph_free 0x25AA%N s;
  fmt_blank_lines : contains [nl; nl; nl] s = false
}.

(** The typing indicator, one request to the backend, the formatted
    answer as the reply: the last four lines of both handlers. *)
Definition answer_flow (w : World) (chat : Z) (question : str) : M unit :=
  (do_send_chat_action w chat (lit "typing") ;;
   ans <- solve_text w question ;;
   formatted <- lift (format_answer_of ans) ;;
   do_reply_text w formatted)%handler.

(** The typing indicator call returns. *)
Definition typing_returns (w : World) (chat : Z) : Prop :=
  on_send_chat_action w [] chat (lit "typing") = Return tt.

(** The backend, asked [question] after the typing indicator, answers
    [ans]. *)
Definition backend_answers (w : World) (chat : Z) (question ans : str) : Prop :=
  on_generate_content w [Returned (send_chat_action chat (lit "typing"))]
    MODEL [Text PROMPT; Text question] config = Return (Some ans).

(** The chat is a group or a supergroup. *)
Definition is_group (c : Chat) : Prop :=
  chat_type c = lit "group" \/ chat_type c = lit "supergroup".

(** The image cannot be decoded: opening it, converting it or saving it
    raises an [Exception]. *)
Inductive decode_fails (w : World) (img_bytes : bytes) : Prop :=
| open_fails (what : string) :
    Image_open w img_bytes = Raise (Exception what) ->
    decode_fails w img_bytes
| convert_fails (img : Image w) (what : string) :
    Image_open w img_bytes = Return img ->
    Image_convert w img (lit "RGB") = Raise (Exception what) ->
    decode_fails w img_bytes
| save_fails (img rgb : Image w) (what : string) :
    Image_open w img_bytes = Return img ->
    Image_convert w img (lit "RGB") = Return rgb ->
    Image_save w rgb (lit "JPEG") = Raise (Exception what) ->
    decode_fails w img_bytes.

(** The call that prints the failure on the console. *)
Definition printed (what : string) : entry :=
  Returned (print (lit "IMAGE ERROR:") (Exception what)).

(** * Concrete events and worlds *)

Module Examples.

Import Byte.

Definition png : bytes := [x89; x50; x4e; x47; x0d; x0a; x1a; x0a].
Definition not_an_image : bytes := [x68; x65; x6c; x6c; x6f].

(** A world in which the transport and the backend return, apart from the
    replies, which end as [reply] says; the backend answers [ans]; the
    image library opens what starts like a PNG file and nothing else. *)
Definition world (reply : log -> str -> result unit) (ans : option str)
  : World :=
  {| on_reply_text := reply;
     on_send_chat_action := fun _ _ _ => Return tt;
     on_generate_content := fun _ _ _ _ => Return ans;
     on_get_file := fun _ p => Return {| file_path := file_id p |};
     on_download_as_bytearray := fun _ _ => Return png;
     on_print := fun _ _ _ => Return tt;
     Image := bytes;
     Image_open := fun b =>
       match b with
       | x89 :: _ => Return b
       | _ => Raise (Exception "UnidentifiedImageError")
       end;
     Image_convert := fun img _ => Return img;
     Image_save := fun img _ => Return (xff :: xd8 :: img) |}.

Definition delivered : log -> str -> result unit := fun _ _ => Return tt.
Definition network_down : log -> str -> result unit :=
  fun _ _ => Raise (Exception "NetworkError").

Definition group_chat : Chat :=
  {| chat_id := (-1001)%Z; chat_type := lit "group" |}.
Definition private_chat : Chat :=
  {| chat_id := 42%Z; chat_type := lit "private" |}.

Definition text_update (c : Chat) (t : str) : Update :=
  {| message := {| text := Some t; chat := c; photo := [] |};
     effective_chat := c |}.

Definition photo_update (c : Chat) : Update :=
  {| message := {| text := None; chat := c;
                   photo := [ {| file_id := lit "small" |};
                              {| file_id := lit "large" |} ] |};
     effective_chat := c |}.

Definition no_args : Context := {| args := [] |}.

End Examples.

Import Examples.

(** * Further notions *)

(** What the three replacements make of one character. *)
Definition hyphenate (c : char) : char :=
  if N.eqb c 0x2022%N then hyphen
  else if N.eqb c 0x25CF%N then hyphen
  else if N.eqb c 0x25AA%N then hyphen
  else c.

Definition not_nl (c : char) : bool := negb (N.eqb c nl).

(** A character of a paragraph: no newline and none of the glyphs. *)
Definition plain (c : char) : Prop := c <> nl /\ hyphenate c = c.

(** The text made of white space only. *)
Definition blank (s : str) : Prop := Forall (fun c => isspace c = true) s.

(** The question [handle_text] goes on with, or [None] where it returns
    at once (the lines up to the typing indicator). *)
Definition question_of (BOT_USERNAME : str) (update : Update) : option str :=
  let text := or_empty (text (message update)) in
  if in_list (chat_type (chat (message update)))
       [lit "group"; lit "supergroup"]
  then
    if negb (contains (mention BOT_USERNAME) text) then None
    else Some (strip (replace text (mention BOT_USERNAME) []))
  else Some text.

(** The third content part of an image request. *)
Definition extract_instruction : str :=
  lit "Extract the text from this question paper image and answer according to marks.".

(** The request [solve_image] makes for the bytes [data]. *)
Definition image_request (data : bytes) : call :=
  generate_content MODEL
    [from_bytes data (lit "image/jpeg"); Text PROMPT; Text extract_instruction]
    config.

(** The request [solve_text] makes for [question]. *)
Definition text_request (question : str) : call :=
  generate_content MODEL [Text PROMPT; Text question] config.

(** A request to the backend as the bot makes them: the fixed model, the
    fixed configuration, and the master prompt among the contents. *)
Definition well_formed_call (c : call) : Prop :=
  match c with
  | generate_content model contents cfg =>
      model = MODEL /\ cfg = config /\ In (Text PROMPT) contents
  | _ => True
  end.

Module Failures.

(** A world in which the typing indicator, the backend, the file lookup
    and the replies end as given; the image library opens nothing. *)
Definition world (typing : result unit) (backend : result (option str))
  (file : result File) (reply : result unit) : World :=
  {| on_reply_text := fun _ _ => reply;
     on_send_chat_action := fun _ _ _ => typing;
     on_generate_content := fun _ _ _ _ => backend;
     on_get_file := fun _ _ => file;
     on_download_as_bytearray := fun _ _ => Return Examples.not_an_image;
     on_print := fun _ _ _ => Return tt;
     Image := unit;
     Image_open := fun _ => Raise (Exception "UnidentifiedImageError");
     Image_convert := fun img _ => Return img;
     Image_save := fun _ _ => Return [] |}.

(** The world [w] with a console on which [print] ends as given. *)
Definition with_print (console : result unit) (w : World) : World :=
  {| on_reply_text := on_reply_text w;
     on_send_chat_action := on_send_chat_action w;
     on_generate_content := on_generate_content w;
     on_get_file := on_get_file w;
     on_download_as_bytearray := on_download_as_bytearray w;
     on_print := fun _ _ _ => console;
     Image := Image w;
     Image_open := Image_open w;
     Image_convert := Image_convert w;
     Image_save := Image_save w |}.

End Failures.

(** * Facts about the string operations *)

Example replace_ex1 :
  replace (lit "a@b@b@bc") (lit "@b@b") (lit "-") = lit "a-@bc".
Proof. reflexivity. Qed.

Example replace_ex2 : replace (lit "abc") [] (lit "-") = lit "-a-b-c-".
Proof. reflexivity. Qed.

Example strip_ex : strip (lit "  a b
 ") = lit "a b".
Proof. reflexivity. Qed.

Example format_answer_ex :
  format_answer ([nl; 0x20%N] ++ bullet ++ lit " a" ++ [nl; nl; nl; nl; nl]
                 ++ small_square ++ lit " b " ++ [nl])
  = lit "- a" ++ [nl; nl] ++ lit "- b".
Proof. reflexivity. Qed.

Lemma startswith_iff (s old : str) :
  startswith s old = true <-> exists post, s = old ++ post.
Proof.
  split.
  - intros H. eexists. exact (startswith_app _ _ H).
  - intros [post ->]. induction old as [|o old IH]; simpl; [reflexivity|].
    rewrite N.eqb_refl. exact IH.
Qed.

Lemma contains_iff (old s : str) : contains old s = true <-> substring old s.
Proof.
  split.
  - induction s as [|c s IH]; intros H.
    + simpl in H. rewrite orb_false_r in H.
      apply startswith_iff in H as [post H]. exists [], post. exact H.
    + rewrite contains_cons in H. apply orb_prop in H as [H|H].
      * apply startswith_iff in H as [post H]. exists [], post. exact H.
      * destruct (IH H) as (pre & post & ->). exists (c :: pre), post.
        reflexivity.
  - intros (pre & post & ->). induction pre as [|c pre IH].
    + simpl app. destruct (old ++ post) eqn:E.
      * simpl. rewrite orb_false_r. apply startswith_iff. exists post.
        symmetry. exact E.
      * rewrite contains_cons. apply orb_true_intro. left.
        apply startswith_iff. exists post. symmetry. exact E.
    + simpl app. rewrite contains_cons. rewrite IH. apply orb_true_r.
Qed.

Lemma contains_false_iff (old s : str) :
  contains old s = false <-> ~ substring old s.
Proof.
  rewrite <- contains_iff. destruct (contains old s); split; intros H;
    try reflexivity; try discriminate; congruence.
Qed.

Lemma contains_single (b : char) (s : str) :
  contains [b] s = true <-> In b s.
Proof.
  rewrite contains_iff. split.
  - intros (pre & post & ->). apply in_or_app. right. left. reflexivity.
  - intros H. apply in_split in H as (pre & post & ->). exists pre, post.
    reflexivity.
Qed.

(** A text without [old] is left alone. *)
Lemma replace_absent (s old new : str) :
  old <> [] -> contains old s = false -> replace s old new = s.
Proof.
  destruct old as [|o old]; [congruence|]. intros _.
  induction s as [|c s IH]; intros H.
  - apply replace_nil.
  - rewrite contains_cons in H. apply orb_false_elim in H as [Hsw Hin].
    rewrite replace_cons, Hsw, (IH Hin). reflexivity.
Qed.

Lemma in_interleave (x : char) (new s : str) :
  In x (interleave new s) -> In x s \/ In x new.
Proof.
  induction s as [|c s IH]; simpl; intros H; [right; exact H|].
  apply in_app_or in H as [H|[H|H]]; [right; exact H | left; left; exact H |].
  destruct (IH H); [left; right|right]; assumption.
Qed.

(** Every character of the result comes from the text or from [new]. *)
Lemma in_replace (x : char) (s old new : str) :
  In x (replace s old new) -> In x s \/ In x new.
Proof.
  destruct old as [|o old].
  - simp replace. apply in_interleave.
  - induction s as [s IH] using str_length_ind.
    destruct s as [|c s]; [rewrite replace_nil; intros []|].
    rewrite replace_cons.
    destruct (startswith (c :: s) (o :: old)).
    + intros H. apply in_app_or in H as [H|H]; [right; exact H|].
      apply IH in H; [|rewrite length_skipn; simpl; lia].
      destruct H as [H|H]; [left|right; exact H].
      right. rewrite <- (firstn_skipn (List.length old) s).
      apply in_or_app. right. exact H.
    + intros [H|H]; [left; left; exact H|].
      apply IH in H; [|simpl; lia].
      destruct H; [left; right|right]; assumption.
Qed.

(** Replacing one character by one character is a [map]. *)
Lemma replace_single (s : str) (c d : char) :
  replace s [c] [d] = List.map (fun x => if N.eqb x c then d else x) s.
Proof.
  induction s as [|x s IH]; [apply replace_nil|].
  rewrite replace_cons. simpl. rewrite andb_true_r.
  destruct (N.eqb x c); rewrite IH; reflexivity.
Qed.

Lemma replace_single_absent (s : str) (c d : char) :
  c <> d -> ~ In c (replace s [c] [d]).
Proof.
  intros Hcd. rewrite replace_single. intros H.
  apply in_map_iff in H as (x & Hx & _).
  destruct (N.eqb x c) eqn:E; [congruence|].
  apply N.eqb_neq in E. congruence.
Qed.

(** A character that is not in [old] and ends the text is kept, and
    what is before it is replaced as if it were alone. *)
Lemma replace_snoc (s old new : str) (c : char) :
  old <> [] -> ~ In c old ->
  replace (s ++ [c]) old new = replace s old new ++ [c].
Proof.
  destruct old as [|o old]; [congruence|]. intros _ Hc.
  assert (Hsw : forall t, startswith (t ++ [c]) (o :: old)
                          = startswith t (o :: old)).
  { intros t. generalize (o :: old) Hc. clear. intros old.
    revert t. induction old as [|o old IH]; intros t Hc; [reflexivity|].
    destruct t as [|x t]; simpl.
    - destruct (N.eqb c o) eqn:E; [|reflexivity].
      apply N.eqb_eq in E. exfalso. apply Hc. left. congruence.
    - rewrite IH; [reflexivity|]. intros H. apply Hc. right. exact H. }
  induction s as [s IH] using str_length_ind.
  destruct s as [|x s].
  - pose proof (Hsw []) as H0.
    change (startswith [c] (o :: old) = false) in H0.
    simpl app. rewrite replace_cons, H0, !replace_nil. reflexivity.
  - change ((x :: s) ++ [c]) with (x :: (s ++ [c])).
    rewrite !replace_cons.
    change (x :: (s ++ [c])) with ((x :: s) ++ [c]). rewrite Hsw.
    destruct (startswith (x :: s) (o :: old)) eqn:E.
    + apply startswith_length in E. simpl in E.
      rewrite skipn_app.
      replace (List.length old - List.length s) with 0 by lia.
      simpl skipn. rewrite IH; [|rewrite length_skipn; simpl; lia].
      rewrite app_assoc. reflexivity.
    + rewrite IH; [reflexivity|simpl; lia].
Qed.

(** ** [strip] *)

Lemma lstrip_suffix (s : str) : exists ws, s = ws ++ lstrip s.
Proof.
  induction s as [|c s [ws IH]]; [exists []; reflexivity|].
  simpl. destruct (isspace c).
  - exists (c :: ws). simpl. f_equal. exact IH.
  - exists []. reflexivity.
Qed.

Lemma rstrip_prefix (s : str) : exists ws, s = rstrip s ++ ws.
Proof.
  unfold rstrip. destruct (lstrip_suffix (rev s)) as [ws H].
  exists (rev ws). rewrite <- rev_app_distr, <- H, rev_involutive.
  reflexivity.
Qed.

Lemma head_ok_lstrip (s : str) : head_ok (lstrip s) = true.
Proof.
  induction s as [|c s IH]; [reflexivity|]. simpl.
  destruct (isspace c) eqn:E; [exact IH|]. simpl. rewrite E. reflexivity.
Qed.

Lemma lstrip_id (s : str) : head_ok s = true -> lstrip s = s.
Proof.
  destruct s as [|c s]; [reflexivity|]. simpl.
  destruct (isspace c); [discriminate|reflexivity].
Qed.

Lemma head_ok_prefix (s t : str) : head_ok (s ++ t) = true -> head_ok s = true.
Proof. destruct s; [reflexivity|exact (fun H => H)]. Qed.

Lemma stripped_strip (s : str) : stripped (strip s).
Proof.
  unfold stripped, strip. split.
  - destruct (rstrip_prefix (lstrip s)) as [ws H].
    apply head_ok_prefix with ws. rewrite <- H. apply head_ok_lstrip.
  - unfold rstrip. rewrite rev_involutive. apply head_ok_lstrip.
Qed.

Lemma strip_id (s : str) : stripped s -> strip s = s.
Proof.
  intros [Hh Hl]. unfold strip, rstrip.
  rewrite (lstrip_id _ Hh), (lstrip_id _ Hl). apply rev_involutive.
Qed.

Lemma lstrip_length (s : str) : List.length (lstrip s) <= List.length s.
Proof.
  destruct (lstrip_suffix s) as [ws H].
  apply (f_equal (@List.length _)) in H. rewrite length_app in H. lia.
Qed.

Lemma strip_length (s : str) : List.length (strip s) <= List.length s.
Proof.
  unfold strip, rstrip. rewrite length_rev.
  pose proof (lstrip_length (rev (lstrip s))) as H1.
  rewrite length_rev in H1. pose proof (lstrip_length s). lia.
Qed.

(** A character-wise substitution that never produces white space from
    a character that is not keeps a stripped text stripped. *)
Lemma stripped_map (f : char -> char) (s : str) :
  (forall c, isspace c = false -> isspace (f c) = false) ->
  stripped s -> stripped (List.map f s).
Proof.
  intros Hf. assert (H : forall t, head_ok t = true ->
                                   head_ok (List.map f t) = true).
  { intros [|c t]; [reflexivity|]. simpl. intros Hc.
    apply negb_true_iff in Hc. rewrite (Hf _ Hc). reflexivity. }
  intros [Hh Hl]. split; [exact (H _ Hh)|].
  rewrite <- map_rev. exact (H _ Hl).
Qed.

Lemma stripped_replace_single (s : str) (c d : char) :
  isspace d = false -> stripped s -> stripped (replace s [c] [d]).
Proof.
  intros Hd Hs. rewrite replace_single. apply stripped_map; [|exact Hs].
  intros x Hx. destruct (N.eqb x c); assumption.
Qed.

(** Replacing a text made of white space only keeps a stripped text
    stripped: its first and last characters are not touched. *)
Lemma stripped_replace_ws (s old new : str) :
  old <> [] -> Forall (fun c => isspace c = true) old ->
  stripped s -> stripped (replace s old new).
Proof.
  intros Hold Hws.
  assert (Hnot : forall c, isspace c = false -> ~ In c old).
  { intros c Hc Hin. rewrite Forall_forall in Hws.
    rewrite (Hws _ Hin) in Hc. discriminate. }
  destruct old as [|o old]; [congruence|].
  assert (Hhead : forall t, head_ok t = true ->
                            head_ok (replace t (o :: old) new) = true).
  { intros [|c t]; [rewrite replace_nil; reflexivity|]. simpl. intros Hc.
    apply negb_true_iff in Hc. rewrite replace_cons.
    assert (E : startswith (c :: t) (o :: old) = false).
    { simpl. destruct (N.eqb c o) eqn:E; [|reflexivity].
      apply N.eqb_eq in E. exfalso. apply (Hnot _ Hc). left. congruence. }
    rewrite E. simpl. rewrite Hc. reflexivity. }
  intros [Hh Hl]. split; [exact (Hhead _ Hh)|].
  destruct (rev s) as [|c r] eqn:E.
  - apply (f_equal (@rev _)) in E. rewrite rev_involutive in E. subst s.
    rewrite replace_nil. reflexivity.
  - apply (f_equal (@rev _)) in E. rewrite rev_involutive in E. subst s.
    simpl in Hl. apply negb_true_iff in Hl. simpl rev.
    rewrite replace_snoc; [|discriminate|exact (Hnot _ Hl)].
    rewrite rev_app_distr. simpl. rewrite Hl. reflexivity.
Qed.

(** ** The blank-line loop *)

Lemma clean_blank_lines_step (ans : str) :
  clean_blank_lines ans =
  if contains [nl; nl; nl] ans
  then clean_blank_lines (replace ans [nl; nl; nl] [nl; nl])
  else ans.
Proof.
  funelim (clean_blank_lines ans).
  - rewrite e. reflexivity.
  - rewrite e. reflexivity.
Qed.

(** The loop leaves no three newlines in a row. *)
Lemma clean_blank_lines_done (ans : str) :
  contains [nl; nl; nl] (clean_blank_lines ans) = false.
Proof.
  induction ans as [ans IH] using str_length_ind.
  rewrite clean_blank_lines_step.
  destruct (contains [nl; nl; nl] ans) eqn:E; [|exact E].
  apply IH. apply replace_length_lt; [simpl; lia|exact E].
Qed.

(** What every round of the loop keeps, the loop keeps. *)
Lemma clean_blank_lines_inv (P : str -> Prop) :
  (forall s, P s -> P (replace s [nl; nl; nl] [nl; nl])) ->
  forall ans, P ans -> P (clean_blank_lines ans).
Proof.
  intros step ans. induction ans as [ans IH] using str_length_ind.
  intros H. rewrite clean_blank_lines_step.
  destruct (contains [nl; nl; nl] ans) eqn:E; [|exact H].
  apply IH; [apply replace_length_lt; [simpl; lia|exact E]|].
  apply step. exact H.
Qed.

Lemma clean_blank_lines_id (ans : str) :
  contains [nl; nl; nl] ans = false -> clean_blank_lines ans = ans.
Proof. intros H. rewrite clean_blank_lines_step, H. reflexivity. Qed.

(** ** The text before the loop, and what [format_answer] returns *)

Lemma lit_hyphen : lit "-" = [hyphen].
Proof. reflexivity. Qed.

Lemma glyph_free_replace (b : char) (s old new : str) :
  glyph_free b s -> glyph_free b new -> glyph_free b (replace s old new).
Proof.
  intros Hs Hn H. apply in_replace in H as [H|H]; [exact (Hs H)|exact (Hn H)].
Qed.

Lemma glyph_free_hyphen (b : char) : b <> hyphen -> glyph_free b [hyphen].
Proof. intros Hb [H|[]]. congruence. Qed.

Lemma glyph_free_nl2 (b : char) : b <> nl -> glyph_free b [nl; nl].
Proof. intros Hb [H|[H|[]]]; congruence. Qed.

Lemma replace_glyph_free (s : str) (b : char) :
  glyph_free b s -> replace s [b] [hyphen] = s.
Proof.
  intros H. apply replace_absent; [discriminate|].
  destruct (contains [b] s) eqn:E; [|reflexivity].
  apply contains_single in E. contradiction.
Qed.

Lemma format_answer_formatted (T : str) : formatted (format_answer T).
Proof.
  unfold format_answer, bullet, black_circle, small_square. cbv zeta.
  rewrite lit_hyphen.
  set (s0 := strip T).
  set (s1 := replace s0 [0x2022%N] [hyphen]).
  set (s2 := replace s1 [0x25CF%N] [hyphen]).
  set (s3 := replace s2 [0x25AA%N] [hyphen]).
  assert (H3 : stripped s3 /\ glyph_free 0x2022%N s3
               /\ glyph_free 0x25CF%N s3 /\ glyph_free 0x25AA%N s3).
  { split; [|split; [|split]].
    - do 3 (apply stripped_replace_single; [reflexivity|]).
      apply stripped_strip.
    - do 2 (apply glyph_free_replace;
            [|apply glyph_free_hyphen; discriminate]).
      apply replace_single_absent. discriminate.
    - apply glyph_free_replace; [|apply glyph_free_hyphen; discriminate].
      apply replace_single_absent. discriminate.
    - apply replace_single_absent. discriminate. }
  destruct H3 as (Hs & Hb1 & Hb2 & Hb3).
  split.
  - apply clean_blank_lines_inv; [|exact Hs].
    intros s. apply stripped_replace_ws; [discriminate|].
    repeat constructor.
  - apply clean_blank_lines_inv; [|exact Hb1].
    intros s H. apply glyph_free_replace; [exact H|].
    apply glyph_free_nl2. discriminate.
  - apply clean_blank_lines_inv; [|exact Hb2].
    intros s H. apply glyph_free_replace; [exact H|].
    apply glyph_free_nl2. discriminate.
  - apply clean_blank_lines_inv; [|exact Hb3].
    intros s H. apply glyph_free_replace; [exact H|].
    apply glyph_free_nl2. discriminate.
  - apply clean_blank_lines_done.
Qed.

Lemma format_answer_fixes (s : str) : formatted s -> format_answer s = s.
Proof.
  intros [Hs Hb1 Hb2 Hb3 Hn].
  unfold format_answer, bullet, black_circle, small_square. cbv zeta.
  rewrite lit_hyphen, (strip_id Hs).
  rewrite (replace_glyph_free Hb1), (replace_glyph_free Hb2),
    (replace_glyph_free Hb3).
  apply clean_blank_lines_id. exact Hn.
Qed.

(** * Properties of the answer formatter *)

(** C1. The answer formatter is idempotent: for every text [T],
    formatting the formatted text gives the formatted text again. *)
Theorem format_answer_idempotent (T : str) :
  format_answer (format_answer T) = format_answer T.
Proof. apply format_answer_fixes. apply format_answer_formatted. Qed.

(** C2. For every text [T], the formatted text contains none of the three
    bullet glyphs (U+2022, U+25CF, U+25AA) and no three newline characters
    in a row, hence no run of three or more. *)
Theorem format_answer_no_glyph_no_blank_run (T : str) :
  ~ substring bullet (format_answer T)
  /\ ~ substring black_circle (format_answer T)
  /\ ~ substring small_square (format_answer T)
  /\ ~ substring [nl; nl; nl] (format_answer T).
Proof.
  destruct (format_answer_formatted T) as [_ Hb1 Hb2 Hb3 Hn].
  unfold bullet, black_circle, small_square.
  repeat split; try (rewrite <- contains_iff, contains_single; assumption).
  apply contains_false_iff. exact Hn.
Qed.

(** C10. The answer formatter never lengthens its input: the formatted
    text has at most as many characters as the text. *)
Theorem format_answer_length (T : str) :
  len (format_answer T) <= len T.
Proof.
  unfold len, format_answer, bullet, black_circle, small_square. cbv zeta.
  rewrite lit_hyphen.
  apply clean_blank_lines_inv with (P := fun s => List.length s <= List.length T).
  - intros s H.
    pose proof (@replace_length_le [nl; nl; nl] [nl; nl] s) as Hle.
    simpl in Hle. specialize (Hle ltac:(discriminate) ltac:(lia)). lia.
  - pose proof (strip_length T) as H0.
    assert (Hr : forall s b, List.length (replace s [b] [hyphen]) <= List.length s).
    { intros s b. apply replace_length_le; [discriminate|simpl; lia]. }
    pose proof (Hr (strip T) 0x2022%N).
    pose proof (Hr (replace (strip T) [0x2022%N] [hyphen]) 0x25CF%N).
    pose proof (Hr (replace (replace (strip T) [0x2022%N] [hyphen])
                      [0x25CF%N] [hyphen]) 0x25AA%N).
    lia.
Qed.

(** * The text flow shared by [solve_cmd] and [handle_text] *)

Lemma answer_flow_only (w : World) (chat : Z) (question : str) :
  Forall (eq [Text PROMPT; Text question])
    (backend_calls (snd (run (answer_flow w chat question)))).
Proof.
  unfold run, answer_flow, bind, do_send_chat_action, solve_text, perform.
  destruct (on_send_chat_action w [] chat (lit "typing")) as [[]|e];
    [|repeat constructor].
  simpl app.
  destruct (on_generate_content w _ MODEL _ config) as [ans|e];
    [|repeat constructor].
  unfold lift. destruct (format_answer_of ans) as [formatted|e];
    [|repeat constructor].
  unfold do_reply_text, perform.
  destruct (on_reply_text w _ formatted); repeat constructor.
Qed.

Lemma answer_flow_once (w : World) (chat : Z) (question : str) :
  typing_returns w chat ->
  backend_calls (snd (run (answer_flow w chat question)))
  = [[Text PROMPT; Text question]].
Proof.
  unfold typing_returns. intros Ht.
  unfold run, answer_flow, bind, do_send_chat_action, solve_text, perform.
  rewrite Ht. simpl app.
  destruct (on_generate_content w _ MODEL _ config) as [ans|e];
    [|reflexivity].
  unfold lift. destruct (format_answer_of ans) as [formatted|e];
    [|reflexivity].
  unfold do_reply_text, perform.
  destruct (on_reply_text w _ formatted); reflexivity.
Qed.

Lemma answer_flow_calls (w : World) (chat : Z) (question ans : str) :
  typing_returns w chat ->
  backend_answers w chat question ans ->
  calls (snd (run (answer_flow w chat question)))
  = [ send_chat_action chat (lit "typing");
      generate_content MODEL [Text PROMPT; Text question] config;
      reply_text (format_answer ans) ].
Proof.
  unfold typing_returns, backend_answers. intros Ht Hb.
  unfold run, answer_flow, bind, do_send_chat_action, solve_text, perform.
  rewrite Ht. simpl app. rewrite Hb. simpl.
  unfold do_reply_text, perform.
  destruct (on_reply_text w _ (format_answer ans)); reflexivity.
Qed.

(** * The /solve command *)

(** Words that are not empty join to a text that is not empty; the
    transport delivers [context.args] as such words. *)
Lemma join_words_nonempty (sep : str) (words : list str) :
  words <> [] -> Forall (fun a => a <> []) words -> join sep words <> [].
Proof.
  destruct words as [|a words]; [congruence|]. intros _ H.
  apply Forall_inv in H. destruct a as [|c a]; [congruence|].
  destruct words; discriminate.
Qed.

(** C4. With no arguments, [solve_cmd] makes one call, the reply
    "Usage: /solve <questions>", and none to the backend.  With arguments
    whose joined text is not empty, when the typing indicator call returns
    and the backend answers, the joined text is sent to text-mode
    generation and the formatted answer is the reply. *)
Theorem solve_cmd_routing
  (w : World) (update : Update) (context : Context) (ans : str) :
  let chat := chat_id (effective_chat update) in
  let question := join (lit " ") (args context) in
  let l := snd (run (solve_cmd w update context)) in
  (args context = [] ->
   calls l = [reply_text (lit "Usage: /solve <questions>")]
   /\ backend_calls l = [])
  /\ (question <> [] ->
      typing_returns w chat ->
      backend_answers w chat question ans ->
      calls l = [ send_chat_action chat (lit "typing");
                  generate_content MODEL [Text PROMPT; Text question] config;
                  reply_text (format_answer ans) ]).
Proof.
  cbv zeta. split.
  - intros Hargs. unfold solve_cmd. rewrite Hargs. simpl join. cbv iota.
    unfold run, do_reply_text, perform.
    destruct (on_reply_text w [] _); split; reflexivity.
  - intros Hq Ht Hb. unfold solve_cmd.
    destruct (join (lit " ") (args context)) as [|c q] eqn:E; [congruence|].
    exact (answer_flow_calls Ht Hb).
Qed.

(** * Plain text messages *)

Lemma str_eqb_eq (a b : str) : str_eqb a b = true <-> a = b.
Proof.
  revert b. induction a as [|x a IH]; intros [|y b]; simpl;
    try (split; [discriminate|congruence]); [split; reflexivity|].
  rewrite andb_true_iff, N.eqb_eq, IH. split.
  - intros [-> ->]. reflexivity.
  - intros H. injection H as -> ->. split; reflexivity.
Qed.

Lemma in_list_groups (c : Chat) :
  in_list (chat_type c) [lit "group"; lit "supergroup"] = true <-> is_group c.
Proof.
  unfold in_list, is_group. simpl existsb.
  rewrite orb_false_r, orb_true_iff, !str_eqb_eq. reflexivity.
Qed.

Lemma handle_text_in_group
  (w : World) (BOT_USERNAME : str) (update : Update) (context : Context) :
  is_group (chat (message update)) ->
  handle_text w BOT_USERNAME update context =
  let text := or_empty (text (message update)) in
  if contains (mention BOT_USERNAME) text
  then answer_flow w (chat_id (effective_chat update))
         (strip (replace text (mention BOT_USERNAME) []))
  else ret tt.
Proof.
  intros Hg. apply in_list_groups in Hg. unfold handle_text. rewrite Hg.
  cbv zeta. destruct (contains _ _); reflexivity.
Qed.

Lemma handle_text_not_in_group
  (w : World) (BOT_USERNAME : str) (update : Update) (context : Context) :
  ~ is_group (chat (message update)) ->
  handle_text w BOT_USERNAME update context =
  answer_flow w (chat_id (effective_chat update))
    (or_empty (text (message update))).
Proof.
  intros Hg. unfold handle_text.
  destruct (in_list _ _) eqn:E; [|reflexivity].
  apply in_list_groups in E. contradiction.
Qed.

(** C5. In a group or supergroup, on a text that does not contain ["@"]
    followed by the handle, [handle_text] returns at once: no call is
    made, so no reply is sent and the backend is not called. *)
Theorem handle_text_group_without_mention
  (w : World) (BOT_USERNAME : str) (update : Update) (context : Context) :
  is_group (chat (message update)) ->
  ~ substring (lit "@" ++ BOT_USERNAME) (or_empty (text (message update))) ->
  run (handle_text w BOT_USERNAME update context) = (Return tt, [])
  /\ replies (snd (run (handle_text w BOT_USERNAME update context))) = []
  /\ backend_calls (snd (run (handle_text w BOT_USERNAME update context))) = [].
Proof.
  intros Hg Hm. apply contains_false_iff in Hm.
  rewrite (handle_text_in_group w BOT_USERNAME update context Hg). cbv zeta.
  unfold mention. rewrite Hm. repeat split.
Qed.

(** C8. Outside groups and supergroups, [handle_text] sends the text of
    the message, as it is, to text-mode generation, whether it mentions
    the bot or not: no other request is ever made to the backend, and this
    one is made when the typing indicator call returns. *)
Theorem handle_text_direct
  (w : World) (BOT_USERNAME : str) (update : Update) (context : Context) :
  ~ is_group (chat (message update)) ->
  let question := or_empty (text (message update)) in
  let l := snd (run (handle_text w BOT_USERNAME update context)) in
  Forall (eq [Text PROMPT; Text question]) (backend_calls l)
  /\ (typing_returns w (chat_id (effective_chat update)) ->
      backend_calls l = [[Text PROMPT; Text question]]).
Proof.
  intros Hg. cbv zeta. rewrite (handle_text_not_in_group _ _ _ _ Hg).
  split; [apply answer_flow_only|apply answer_flow_once].
Qed.

(** C6. In a group, with the handle "mybot", the text
    "@mybot What is 2+2? (1m)" reaches text-mode generation as
    "What is 2+2? (1m)": no other request is ever made to the backend, and
    this one is made when the typing indicator call returns. *)
Theorem handle_text_mybot_example
  (w : World) (update : Update) (context : Context) :
  is_group (chat (message update)) ->
  text (message update) = Some (lit "@mybot What is 2+2? (1m)") ->
  let l := snd (run (handle_text w (lit "mybot") update context)) in
  Forall (eq [Text PROMPT; Text (lit "What is 2+2? (1m)")]) (backend_calls l)
  /\ (typing_returns w (chat_id (effective_chat update)) ->
      backend_calls l = [[Text PROMPT; Text (lit "What is 2+2? (1m)")]]).
Proof.
  intros Hg Htext. cbv zeta.
  rewrite (handle_text_in_group _ _ _ _ Hg), Htext. cbv zeta.
  change (or_empty (Some (lit "@mybot What is 2+2? (1m)")))
    with (lit "@mybot What is 2+2? (1m)").
  replace (contains (mention (lit "mybot")) (lit "@mybot What is 2+2? (1m)"))
    with true by (vm_compute; reflexivity).
  replace (strip (replace (lit "@mybot What is 2+2? (1m)")
                    (mention (lit "mybot")) []))
    with (lit "What is 2+2? (1m)") by (vm_compute; reflexivity).
  split; [apply answer_flow_only|apply answer_flow_once].
Qed.

(** ** The mention in a group *)

Lemma join_cons (sep x : str) (xs : list str) :
  xs <> [] -> join sep (x :: xs) = x ++ sep ++ join sep xs.
Proof. destruct xs; [congruence|reflexivity]. Qed.

Lemma substring_nil (old : str) : old <> [] -> ~ substring old [].
Proof.
  intros Hold (pre & post & H). destruct pre; [|discriminate].
  destruct old; [congruence|discriminate].
Qed.

(** [s.replace(old, "")] cuts [s] at occurrences of [old] into pieces
    without [old] and drops every cut. *)
Lemma replace_segments (old s : str) :
  old <> [] ->
  exists segs,
    segs <> [] /\ s = join old segs
    /\ Forall (fun seg => ~ substring old seg) segs
    /\ replace s old [] = List.concat segs.
Proof.
  intros Hold. pose proof (substring_nil Hold) as Hnil.
  destruct old as [|o old]; [congruence|]. clear Hold.
  induction s as [s IH] using str_length_ind.
  destruct s as [|c s].
  - exists [[]]. rewrite replace_nil. repeat split; try discriminate.
    constructor; [exact Hnil|constructor].
  - rewrite replace_cons.
    destruct (startswith (c :: s) (o :: old)) eqn:E.
    + pose proof (startswith_app _ _ E) as Happ. simpl in Happ.
      injection Happ as -> Hs.
      destruct (IH (skipn (List.length old) s)) as (segs & Hne & Hj & Hf & Hr);
        [rewrite length_skipn; simpl; lia|].
      exists ([] :: segs). rewrite (join_cons _ _ Hne). repeat split.
      * discriminate.
      * simpl. rewrite <- Hj. f_equal. exact Hs.
      * constructor; assumption.
      * simpl. exact Hr.
    + destruct (IH s) as (segs & Hne & Hj & Hf & Hr); [simpl; lia|].
      destruct segs as [|seg segs]; [congruence|].
      exists ((c :: seg) :: segs). repeat split.
      * discriminate.
      * rewrite Hj. destruct segs; reflexivity.
      * constructor; [|exact (Forall_inv_tail Hf)].
        intros (pre & post & H). destruct pre as [|x pre].
        -- simpl in H.
           assert (Hsw : startswith (c :: s) (o :: old) = true).
           { apply startswith_iff. rewrite Hj.
             destruct segs as [|seg' segs].
             - exists post. simpl join. rewrite H. reflexivity.
             - exists (post ++ (o :: old) ++ join (o :: old) (seg' :: segs)).
               rewrite join_cons by discriminate.
               change (c :: seg ++ (o :: old) ++ join (o :: old) (seg' :: segs))
                 with ((c :: seg) ++ (o :: old) ++ join (o :: old) (seg' :: segs)).
               rewrite H. simpl. rewrite <- app_assoc. reflexivity. }
           congruence.
        -- injection H as _ H. apply (Forall_inv Hf). exists pre, post.
           exact H.
      * simpl. rewrite Hr. reflexivity.
Qed.

Lemma answer_flow_starts (w : World) (chat : Z) (question : str) :
  hd_error (calls (snd (run (answer_flow w chat question))))
  = Some (send_chat_action chat (lit "typing")).
Proof.
  unfold run, answer_flow, bind, do_send_chat_action, solve_text, perform.
  destruct (on_send_chat_action w [] chat (lit "typing")) as [[]|e];
    [|reflexivity].
  simpl app.
  destruct (on_generate_content w _ MODEL _ config) as [ans|e];
    [|reflexivity].
  unfold lift. destruct (format_answer_of ans) as [formatted|e];
    [|reflexivity].
  unfold do_reply_text, perform.
  destruct (on_reply_text w _ formatted); reflexivity.
Qed.

(** C9. In a group or supergroup, a text that contains ["@"] followed by
    the handle anywhere, also as the start of a longer word, is processed:
    the handler goes on to the typing indicator.  The text is cut at
    occurrences of the mention into pieces without it, every cut is
    dropped, and the pieces, stripped as a whole, are the text sent to the
    backend: what follows a mention stays. *)
Theorem handle_text_mention_anywhere
  (w : World) (BOT_USERNAME : str) (update : Update) (context : Context) :
  is_group (chat (message update)) ->
  substring (lit "@" ++ BOT_USERNAME) (or_empty (text (message update))) ->
  let l := snd (run (handle_text w BOT_USERNAME update context)) in
  exists segs,
    or_empty (text (message update)) = join (lit "@" ++ BOT_USERNAME) segs
    /\ Forall (fun seg => ~ substring (lit "@" ++ BOT_USERNAME) seg) segs
    /\ hd_error (calls l)
       = Some (send_chat_action (chat_id (effective_chat update))
                 (lit "typing"))
    /\ Forall (eq [Text PROMPT; Text (strip (List.concat segs))]) (backend_calls l)
    /\ (typing_returns w (chat_id (effective_chat update)) ->
        backend_calls l = [[Text PROMPT; Text (strip (List.concat segs))]]).
Proof.
  intros Hg Hm. cbv zeta. apply contains_iff in Hm.
  rewrite (handle_text_in_group _ _ _ _ Hg). cbv zeta.
  unfold mention. rewrite Hm.
  destruct (@replace_segments (lit "@" ++ BOT_USERNAME)
              (or_empty (text (message update))))
    as (segs & _ & Hj & Hf & Hr); [discriminate|].
  exists segs. rewrite Hr. repeat split.
  - exact Hj.
  - exact Hf.
  - apply answer_flow_starts.
  - apply answer_flow_only.
  - apply answer_flow_once.
Qed.

(** * The image normalizer *)

(** C7. On bytes that cannot be decoded as an image, [to_jpeg] raises
    nothing and returns the bytes it was given. *)
Theorem to_jpeg_passthrough (w : World) (img_bytes : bytes) :
  decode_fails w img_bytes -> to_jpeg w img_bytes = Return img_bytes.
Proof.
  unfold to_jpeg.
  intros [what Ho|img what Ho Hc|img rgb what Ho Hc Hs].
  - rewrite Ho. reflexivity.
  - rewrite Ho. simpl. rewrite Hc. reflexivity.
  - rewrite Ho. simpl. rewrite Hc. simpl. rewrite Hs. reflexivity.
Qed.

(** * Photo messages *)

Lemma replies_app (l1 l2 : log) : replies (l1 ++ l2) = replies l1 ++ replies l2.
Proof.
  induction l1 as [|x l1 IH]; [reflexivity|].
  destruct x as [c|c e]; [destruct c|]; simpl; rewrite IH; reflexivity.
Qed.

(** When the [try] block raises, no reply has been delivered: its reply
    is its last call. *)
Lemma handle_image_try_no_reply
  (w : World) (update : Update) (context : Context) (e : exn) (l1 : log) :
  run (handle_image_try w update context) = (Raise e, l1) -> replies l1 = [].
Proof.
  unfold run, handle_image_try, solve_image, do_send_chat_action,
    do_reply_text, bind, lift, perform.
  destruct (last_item (photo (message update))) as [p|e0];
    [|intros H; injection H as _ <-; reflexivity].
  destruct (on_get_file w [] p) as [f|e0]; cbn [app];
    [|intros H; injection H as _ <-; reflexivity].
  destruct (on_download_as_bytearray w _ f) as [b|e0]; cbn [app];
    [|intros H; injection H as _ <-; reflexivity].
  destruct (on_send_chat_action w _ _ _) as [[]|e0]; cbn [app];
    [|intros H; injection H as _ <-; reflexivity].
  destruct (to_jpeg w b) as [jpeg|e0];
    [|intros H; injection H as _ <-; reflexivity].
  destruct (on_generate_content w _ _ _ _) as [ans|e0]; cbn [app];
    [|intros H; injection H as _ <-; reflexivity].
  destruct (format_answer_of ans) as [formatted|e0];
    [|intros H; injection H as _ <-; reflexivity].
  destruct (on_reply_text w _ formatted) as [[]|e0]; cbn [app];
    [discriminate|intros H; injection H as _ <-; reflexivity].
Qed.

(** C3, as the code has it.  When a step of the [try] block of
    [handle_image] raises an [Exception], the handler prints it; when the
    print returns, it calls the reply with "Image processing failed.";
    when that reply returns too, it is the only message delivered and the
    handler returns. *)
Theorem handle_image_failure
  (w : World) (update : Update) (context : Context)
  (what : string) (l1 : log) :
  run (handle_image_try w update context) = (Raise (Exception what), l1) ->
  on_print w l1 (lit "IMAGE ERROR:") (Exception what) = Return tt ->
  on_reply_text w (l1 ++ [printed what]) (lit "Image processing failed.")
  = Return tt ->
  run (handle_image w update context)
  = (Return tt,
     l1 ++ [printed what;
            Returned (reply_text (lit "Image processing failed."))])
  /\ replies (snd (run (handle_image w update context)))
     = [lit "Image processing failed."].
Proof.
  intros Htry Hprint Hreply.
  assert (Hrun : run (handle_image w update context)
                 = (Return tt,
                    l1 ++ [printed what;
                           Returned (reply_text
                                       (lit "Image processing failed."))])).
  { unfold run, handle_image, try_except. unfold run in Htry. rewrite Htry.
    unfold printed in *. unfold do_reply_text, bind, perform.
    rewrite Hprint, Hreply, <- app_assoc. reflexivity. }
  split; [exact Hrun|].
  rewrite Hrun. cbn [snd]. rewrite replies_app.
  rewrite (handle_image_try_no_reply _ _ _ Htry). reflexivity.
Qed.

(** When that reply raises too, its failure leaves the handler. *)
Lemma handle_image_fallback_raises
  (w : World) (update : Update) (context : Context)
  (what : string) (l1 : log) (e : exn) :
  run (handle_image_try w update context) = (Raise (Exception what), l1) ->
  on_print w l1 (lit "IMAGE ERROR:") (Exception what) = Return tt ->
  on_reply_text w (l1 ++ [printed what]) (lit "Image processing failed.")
  = Raise e ->
  fst (run (handle_image w update context)) = Raise e.
Proof.
  intros Htry Hprint Hreply.
  unfold run, handle_image, try_except. unfold run in Htry. rewrite Htry.
  unfold printed in *. unfold do_reply_text, bind, perform.
  rewrite Hprint, Hreply. reflexivity.
Qed.

(** When the print raises, the reply is never called and the failure of
    the print leaves the handler. *)
Lemma handle_image_print_raises
  (w : World) (update : Update) (context : Context)
  (what : string) (l1 : log) (e : exn) :
  run (handle_image_try w update context) = (Raise (Exception what), l1) ->
  on_print w l1 (lit "IMAGE ERROR:") (Exception what) = Raise e ->
  run (handle_image w update context)
  = (Raise e, l1 ++ [Raised (print (lit "IMAGE ERROR:") (Exception what)) e]).
Proof.
  intros Htry Hprint.
  unfold run, handle_image, try_except. unfold run in Htry. rewrite Htry.
  unfold do_reply_text, bind, perform. rewrite Hprint. reflexivity.
Qed.

(** What is not an [Exception] is not caught. *)
Lemma handle_image_base_exception
  (w : World) (update : Update) (context : Context)
  (what : string) (l1 : log) :
  run (handle_image_try w update context) = (Raise (BaseException what), l1) ->
  run (handle_image w update context) = (Raise (BaseException what), l1).
Proof.
  intros Htry. unfold run, handle_image, try_except. unfold run in Htry.
  rewrite Htry. reflexivity.
Qed.

(** * The theorems at concrete events *)

(** C3, as the specification states it, fails: with the network down the
    reply at the end of the [try] block raises, the reply of the handler
    raises as well, and this failure leaves [handle_image]; the user
    receives nothing. *)
Lemma handle_image_failure_escapes :
  (exists l1,
     run (handle_image_try (world network_down (Some (lit "4")))
            (photo_update private_chat) no_args)
     = (Raise (Exception "NetworkError"), l1))
  /\ fst (run (handle_image (world network_down (Some (lit "4")))
                 (photo_update private_chat) no_args))
     = Raise (Exception "NetworkError")
  /\ replies (snd (run (handle_image (world network_down (Some (lit "4")))
                          (photo_update private_chat) no_args)))
     = [].
Proof.
  split; [eexists; vm_compute; reflexivity|].
  split; vm_compute; reflexivity.
Qed.

(** A response without text makes [format_answer] raise in the [try]
    block; the reply of the handler is delivered. *)
Lemma handle_image_failure_witness :
  run (handle_image (world delivered None) (photo_update private_chat) no_args)
  = (Return tt,
     [ Returned (get_file {| file_id := lit "large" |});
       Returned (download_as_bytearray {| file_path := lit "large" |});
       Returned (send_chat_action 42 (lit "typing"));
       Returned (generate_content MODEL
                   [ from_bytes (Byte.xff :: Byte.xd8 :: png)
                       (lit "image/jpeg");
                     Text PROMPT;
                     Text (lit "Extract the text from this question paper image and answer according to marks.") ]
                   config) ]
     ++ [ printed "AttributeError";
          Returned (reply_text (lit "Image processing failed.")) ])
  /\ replies (snd (run (handle_image (world delivered None)
                          (photo_update private_chat) no_args)))
     = [lit "Image processing failed."].
Proof.
  apply (@handle_image_failure (world delivered None)
           (photo_update private_chat) no_args "AttributeError").
  - vm_compute. reflexivity.
  - reflexivity.
  - reflexivity.
Defined.

Lemma solve_cmd_routing_witness :
  (calls (snd (run (solve_cmd (world delivered (Some (lit "4")))
                      (text_update private_chat (lit "/solve")) no_args)))
   = [reply_text (lit "Usage: /solve <questions>")]
   /\ backend_calls
        (snd (run (solve_cmd (world delivered (Some (lit "4")))
                     (text_update private_chat (lit "/solve")) no_args)))
      = [])
  /\ calls (snd (run (solve_cmd (world delivered (Some (lit " 4 ")))
                        (text_update private_chat (lit "/solve 2+2? (1m)"))
                        {| args := [lit "2+2?"; lit "(1m)"] |})))
     = [ send_chat_action 42 (lit "typing");
         generate_content MODEL [Text PROMPT; Text (lit "2+2? (1m)")] config;
         reply_text (lit "4") ].
Proof.
  split.
  - exact (proj1 (solve_cmd_routing (world delivered (Some (lit "4")))
                    (text_update private_chat (lit "/solve")) no_args [])
             eq_refl).
  - refine (proj2 (solve_cmd_routing (world delivered (Some (lit " 4 ")))
                     (text_update private_chat (lit "/solve 2+2? (1m)"))
                     {| args := [lit "2+2?"; lit "(1m)"] |} (lit " 4 "))
              _ _ _).
    + discriminate.
    + reflexivity.
    + reflexivity.
Defined.

Lemma handle_text_group_without_mention_witness :
  run (handle_text (world delivered (Some (lit "4"))) (lit "mybot")
         (text_update group_chat (lit "What is 2+2? mybot@")) no_args)
  = (Return tt, [])
  /\ replies (snd (run (handle_text (world delivered (Some (lit "4")))
                          (lit "mybot")
                          (text_update group_chat (lit "What is 2+2? mybot@"))
                          no_args)))
     = []
  /\ backend_calls
       (snd (run (handle_text (world delivered (Some (lit "4")))
                    (lit "mybot")
                    (text_update group_chat (lit "What is 2+2? mybot@"))
                    no_args)))
     = [].
Proof.
  apply handle_text_group_without_mention.
  - left. reflexivity.
  - apply contains_false_iff. vm_compute. reflexivity.
Defined.

Lemma handle_text_mybot_example_witness :
  Forall (eq [Text PROMPT; Text (lit "What is 2+2? (1m)")])
    (backend_calls
       (snd (run (handle_text (world delivered (Some (lit "4")))
                    (lit "mybot")
                    (text_update group_chat (lit "@mybot What is 2+2? (1m)"))
                    no_args))))
  /\ (typing_returns (world delivered (Some (lit "4"))) (-1001) ->
      backend_calls
        (snd (run (handle_text (world delivered (Some (lit "4")))
                     (lit "mybot")
                     (text_update group_chat
                        (lit "@mybot What is 2+2? (1m)"))
                     no_args)))
      = [[Text PROMPT; Text (lit "What is 2+2? (1m)")]]).
Proof.
  apply (@handle_text_mybot_example (world delivered (Some (lit "4")))
           (text_update group_chat (lit "@mybot What is 2+2? (1m)")) no_args).
  - left. reflexivity.
  - reflexivity.
Defined.

Lemma handle_text_direct_witness :
  Forall (eq [Text PROMPT; Text (lit "@mybot What is 2+2? (1m)")])
    (backend_calls
       (snd (run (handle_text (world delivered (Some (lit "4")))
                    (lit "mybot")
                    (text_update private_chat
                       (lit "@mybot What is 2+2? (1m)"))
                    no_args))))
  /\ (typing_returns (world delivered (Some (lit "4"))) 42 ->
      backend_calls
        (snd (run (handle_text (world delivered (Some (lit "4")))
                     (lit "mybot")
                     (text_update private_chat
                        (lit "@mybot What is 2+2? (1m)"))
                     no_args)))
      = [[Text PROMPT; Text (lit "@mybot What is 2+2? (1m)")]]).
Proof.
  apply (@handle_text_direct (world delivered (Some (lit "4"))) (lit "mybot")
           (text_update private_chat (lit "@mybot What is 2+2? (1m)"))
           no_args).
  intros [H|H]; discriminate H.
Defined.

Lemma to_jpeg_passthrough_witness :
  to_jpeg (world delivered None) not_an_image = Return not_an_image.
Proof.
  apply to_jpeg_passthrough.
  apply open_fails with (what := "UnidentifiedImageError"%string).
  reflexivity.
Defined.

(** In a world whose image library opens the bytes, they are converted. *)
Example to_jpeg_png :
  to_jpeg (world delivered None) png = Return (Byte.xff :: Byte.xd8 :: png).
Proof. reflexivity. Qed.

Lemma handle_text_mention_anywhere_witness :
  exists segs,
    lit "hi @mybotxyz, what is 2+2?@mybot"
    = join (lit "@" ++ lit "mybot") segs
    /\ Forall (fun seg => ~ substring (lit "@" ++ lit "mybot") seg) segs
    /\ hd_error
         (calls (snd (run (handle_text (world delivered (Some (lit "4")))
                             (lit "mybot")
                             (text_update group_chat
                                (lit "hi @mybotxyz, what is 2+2?@mybot"))
                             no_args))))
       = Some (send_chat_action (-1001) (lit "typing"))
    /\ Forall (eq [Text PROMPT; Text (strip (List.concat segs))])
         (backend_calls
            (snd (run (handle_text (world delivered (Some (lit "4")))
                         (lit "mybot")
                         (text_update group_chat
                            (lit "hi @mybotxyz, what is 2+2?@mybot"))
                         no_args))))
    /\ (typing_returns (world delivered (Some (lit "4"))) (-1001) ->
        backend_calls
          (snd (run (handle_text (world delivered (Some (lit "4")))
                       (lit "mybot")
                       (text_update group_chat
                          (lit "hi @mybotxyz, what is 2+2?@mybot"))
                       no_args)))
        = [[Text PROMPT; Text (strip (List.concat segs))]]).
Proof.
  apply (@handle_text_mention_anywhere (world delivered (Some (lit "4")))
           (lit "mybot")
           (text_update group_chat (lit "hi @mybotxyz, what is 2+2?@mybot"))
           no_args).
  - left. reflexivity.
  - exists (lit "hi "), (lit "xyz, what is 2+2?@mybot"). reflexivity.
Defined.

(** The handle as the start of a longer word: "@mybotxyz" is processed
    and "xyz" is what the backend receives. *)
Example handle_text_longer_word :
  calls (snd (run (handle_text (world delivered (Some (lit "4")))
                     (lit "mybot")
                     (text_update group_chat (lit "@mybotxyz")) no_args)))
  = [ send_chat_action (-1001) (lit "typing");
      generate_content MODEL [Text PROMPT; Text (lit "xyz")] config;
      reply_text (lit "4") ].
Proof. vm_compute. reflexivity. Qed.

(** Every occurrence met by the scan is removed, not the first only; what
    the removal brings together is not scanned again. *)
Example replace_mentions :
  replace (lit "@mybot a @mybot b") (lit "@mybot") [] = lit " a  b"
  /\ replace (lit "@my@mybotbot") (lit "@mybot") [] = lit "@mybot".
Proof. split; reflexivity. Qed.

(** * More about the answer formatter *)

Lemma hyphenate_three (c : char) :
  (fun x => if N.eqb x 0x25AA%N then hyphen else x)
    ((fun x => if N.eqb x 0x25CF%N then hyphen else x)
       ((fun x => if N.eqb x 0x2022%N then hyphen else x) c))
  = hyphenate c.
Proof.
  unfold hyphenate. cbv beta.
  destruct (N.eqb_spec c 0x2022%N) as [->|H1]; [reflexivity|].
  destruct (N.eqb_spec c 0x25CF%N) as [->|H2]; [reflexivity|].
  reflexivity.
Qed.

(** The three replacements are one pass over the text. *)
Lemma replace_glyphs (s : str) :
  replace (replace (replace s bullet (lit "-")) black_circle (lit "-"))
    small_square (lit "-")
  = List.map hyphenate s.
Proof.
  unfold bullet, black_circle, small_square. rewrite lit_hyphen.
  rewrite !replace_single, !map_map. apply map_ext. exact hyphenate_three.
Qed.

Lemma format_answer_unfold (T : str) :
  format_answer T = clean_blank_lines (List.map hyphenate (strip T)).
Proof. unfold format_answer. cbv zeta. rewrite replace_glyphs. reflexivity. Qed.

(** Characters other than the start of [old] are passed over. *)
Lemma replace_skip (pre s : str) (o : char) (old new : str) :
  Forall (fun c => c <> o) pre ->
  replace (pre ++ s) (o :: old) new = pre ++ replace s (o :: old) new.
Proof.
  induction pre as [|c pre IH]; intros H; [reflexivity|].
  inversion H as [|? ? Hc Hpre]; subst. simpl app. rewrite replace_cons.
  assert (E : startswith (c :: pre ++ s) (o :: old) = false).
  { simpl. apply N.eqb_neq in Hc. rewrite Hc. reflexivity. }
  rewrite E, (IH Hpre). reflexivity.
Qed.

(** When [old] and [new] have the same characters under [p], so have the
    text and the result. *)
Lemma filter_replace (p : char -> bool) (s old new : str) :
  old <> [] -> filter p old = filter p new ->
  filter p (replace s old new) = filter p s.
Proof.
  intros Hold Hp. destruct old as [|o old]; [congruence|]. clear Hold.
  induction s as [s IH] using str_length_ind.
  destruct s as [|c s]; [rewrite replace_nil; reflexivity|].
  rewrite replace_cons.
  destruct (startswith (c :: s) (o :: old)) eqn:E.
  - assert (Hs : c :: s = (o :: old) ++ skipn (List.length old) s)
      by exact (startswith_app _ _ E).
    rewrite Hs, !filter_app, <- Hp.
    rewrite IH; [reflexivity|rewrite length_skipn; simpl; lia].
  - simpl. rewrite IH; [reflexivity|simpl; lia].
Qed.

Lemma filter_lstrip (p : char -> bool) (s : str) :
  (forall c, isspace c = true -> p c = false) ->
  filter p (lstrip s) = filter p s.
Proof.
  intros Hp. induction s as [|c s IH]; [reflexivity|]. simpl.
  destruct (isspace c) eqn:E; [|reflexivity].
  rewrite (Hp _ E). exact IH.
Qed.

Lemma filter_strip (p : char -> bool) (s : str) :
  (forall c, isspace c = true -> p c = false) ->
  filter p (strip s) = filter p s.
Proof.
  intros Hp. unfold strip, rstrip.
  rewrite filter_rev, (filter_lstrip _ _ Hp), filter_rev,
    (filter_lstrip _ _ Hp). apply rev_involutive.
Qed.

Lemma filter_map_hyphenate (p : char -> bool) (s : str) :
  (forall c, p (hyphenate c) = p c) ->
  filter p (List.map hyphenate s) = List.map hyphenate (filter p s).
Proof.
  intros Hp. induction s as [|c s IH]; [reflexivity|]. simpl.
  rewrite Hp. destruct (p c); simpl; rewrite IH; reflexivity.
Qed.

Lemma hyphenate_cases (c : char) :
  hyphenate c = c
  \/ (hyphenate c = hyphen
      /\ (c = 0x2022%N \/ c = 0x25CF%N \/ c = 0x25AA%N)).
Proof.
  unfold hyphenate.
  destruct (N.eqb_spec c 0x2022%N); [right; split; [reflexivity|tauto]|].
  destruct (N.eqb_spec c 0x25CF%N); [right; split; [reflexivity|tauto]|].
  destruct (N.eqb_spec c 0x25AA%N); [right; split; [reflexivity|tauto]|].
  left. reflexivity.
Qed.

Lemma not_nl_hyphenate (c : char) : not_nl (hyphenate c) = not_nl c.
Proof.
  destruct (hyphenate_cases c) as [->|[-> [->|[->| ->]]]]; reflexivity.
Qed.

Lemma isspace_hyphenate (c : char) : isspace (hyphenate c) = isspace c.
Proof.
  destruct (hyphenate_cases c) as [->|[-> [->|[->| ->]]]]; reflexivity.
Qed.

(** The characters that are not white space, in order, with the glyphs
    replaced. *)
Lemma format_answer_visible (T : str) :
  filter (fun c => negb (isspace c)) (format_answer T)
  = List.map hyphenate (filter (fun c => negb (isspace c)) T).
Proof.
  rewrite format_answer_unfold.
  rewrite <- (@filter_strip (fun c => negb (isspace c)) T)
    by (intros c ->; reflexivity).
  rewrite <- filter_map_hyphenate
    by (intros c; rewrite isspace_hyphenate; reflexivity).
  apply clean_blank_lines_inv
    with (P := fun s => filter (fun c => negb (isspace c)) s
                        = filter (fun c => negb (isspace c))
                            (List.map hyphenate (strip T)));
    [|reflexivity].
  intros s Hs. rewrite filter_replace; [exact Hs|discriminate|reflexivity].
Qed.

(** X1. The formatted text neither starts nor ends with a white-space
    character. *)
Theorem format_answer_ends (T : str) :
  (forall c rest, format_answer T = c :: rest -> isspace c = false)
  /\ (forall init c, format_answer T = init ++ [c] -> isspace c = false).
Proof.
  destruct (format_answer_formatted T) as [[Hh Hl] _ _ _ _]. split.
  - intros c rest E. rewrite E in Hh. simpl in Hh.
    apply negb_true_iff. exact Hh.
  - intros init c E. rewrite E, rev_app_distr in Hl. simpl in Hl.
    apply negb_true_iff. exact Hl.
Qed.

(** X2. Inside the stripped text the formatter deletes newline characters
    only and changes the three glyphs only: the other characters of the
    stripped text come out in their order, each glyph as a hyphen. *)
Theorem format_answer_deletes_newlines_only (T : str) :
  filter not_nl (format_answer T)
  = List.map hyphenate (filter not_nl (strip T)).
Proof.
  rewrite format_answer_unfold.
  rewrite <- filter_map_hyphenate by exact not_nl_hyphenate.
  apply clean_blank_lines_inv
    with (P := fun s => filter not_nl s
                        = filter not_nl (List.map hyphenate (strip T)));
    [|reflexivity].
  intros s Hs. rewrite filter_replace; [exact Hs|discriminate|reflexivity].
Qed.

(** X3. A text whose stripped form has no three newlines in a row comes
    out as its stripped form with each glyph replaced in place, so with
    the length of the stripped form. *)
Theorem format_answer_without_blank_run (T : str) :
  ~ substring [nl; nl; nl] (strip T) ->
  format_answer T = List.map hyphenate (strip T)
  /\ len (format_answer T) = len (strip T).
Proof.
  intros H. apply contains_false_iff in H.
  assert (E : format_answer T = List.map hyphenate (strip T)).
  { rewrite format_answer_unfold. apply clean_blank_lines_id.
    destruct (contains [nl; nl; nl] (List.map hyphenate (strip T))) eqn:C;
      [|reflexivity].
    apply contains_iff in C. destruct C as (pre & post & C).
    apply contains_false_iff in H. exfalso. apply H.
    apply map_eq_app in C as (l1 & l23 & -> & <- & C).
    apply map_eq_app in C as (l2 & l3 & -> & C & <-).
    exists l1, l3. f_equal. f_equal.
    destruct l2 as [|a [|b [|c [|? ?]]]]; try discriminate C.
    injection C as Ha Hb Hc.
    assert (Hnl : forall x, hyphenate x = nl -> x = nl).
    { intros x Hx. destruct (hyphenate_cases x) as [E|[E _]];
        rewrite E in Hx; [exact Hx|discriminate Hx]. }
    rewrite (Hnl _ Ha), (Hnl _ Hb), (Hnl _ Hc). reflexivity. }
  split; [exact E|]. rewrite E. unfold len. apply length_map.
Qed.

(** X4. The formatted text is empty exactly when the text is made of
    white space only. *)
Theorem format_answer_empty_iff (T : str) :
  format_answer T = [] <-> blank T.
Proof.
  unfold blank. split.
  - intros E. pose proof (format_answer_visible T) as H.
    rewrite E in H. simpl in H. symmetry in H. apply map_eq_nil in H.
    apply Forall_forall. intros c Hc.
    destruct (isspace c) eqn:Ec; [reflexivity|].
    assert (Hin : In c (filter (fun c => negb (isspace c)) T))
      by (apply filter_In; rewrite Ec; split; [exact Hc|reflexivity]).
    rewrite H in Hin. destruct Hin.
  - intros H. pose proof (format_answer_visible T) as Hv.
    assert (Hf : filter (fun c => negb (isspace c)) T = []).
    { clear Hv. induction H as [|c s Hc Hs IH]; [reflexivity|].
      simpl. rewrite Hc. exact IH. }
    rewrite Hf in Hv. simpl in Hv.
    destruct (format_answer_formatted T) as [[Hh _] _ _ _ _].
    destruct (format_answer T) as [|c rest]; [reflexivity|].
    simpl in Hh. apply negb_true_iff in Hh.
    simpl in Hv. rewrite Hh in Hv. discriminate Hv.
Qed.

(** X5. The texts the formatter leaves unchanged are exactly those with
    nothing to strip, none of the three glyphs and no three newlines in a
    row. *)
Theorem format_answer_fixed_points (s : str) :
  format_answer s = s <-> formatted s.
Proof.
  split.
  - intros E. rewrite <- E. apply format_answer_formatted.
  - apply format_answer_fixes.
Qed.

(** ** Paragraph breaks *)

(** One round on a run of newlines before a text without newlines. *)
Lemma replace_newline_run (b : str) :
  Forall (fun c => c <> nl) b ->
  forall n, exists m,
    replace (repeat nl n ++ b) [nl; nl; nl] [nl; nl] = repeat nl m ++ b
    /\ (n < 3 -> m = n) /\ (3 <= n -> 2 <= m < n).
Proof.
  intros Hb.
  assert (H0 : replace b [nl; nl; nl] [nl; nl] = b).
  { rewrite <- (app_nil_r b) at 1. rewrite replace_skip by exact Hb.
    rewrite replace_nil. apply app_nil_r. }
  assert (H1 : replace (nl :: b) [nl; nl; nl] [nl; nl] = nl :: b).
  { rewrite replace_cons.
    replace (startswith (nl :: b) [nl; nl; nl]) with false; [rewrite H0; reflexivity|].
    destruct Hb as [|c b Hc _]; [reflexivity|]. simpl.
    apply N.eqb_neq in Hc. rewrite Hc. reflexivity. }
  assert (H2 : replace (nl :: nl :: b) [nl; nl; nl] [nl; nl] = nl :: nl :: b).
  { rewrite replace_cons.
    replace (startswith (nl :: nl :: b) [nl; nl; nl]) with false;
      [rewrite H1; reflexivity|].
    destruct Hb as [|c b Hc _]; [reflexivity|]. simpl.
    apply N.eqb_neq in Hc. rewrite Hc. reflexivity. }
  induction n as [n IH] using lt_wf_ind.
  destruct n as [|[|[|k]]].
  - exists 0. simpl. repeat split; try lia. exact H0.
  - exists 1. simpl. repeat split; try lia. exact H1.
  - exists 2. simpl. repeat split; try lia. exact H2.
  - destruct (IH k) as (m & Hm & Hlt & Hge); [lia|].
    exists (2 + m). split; [|split; [lia|]].
    + change (repeat nl (S (S (S k))) ++ b)
        with (nl :: nl :: nl :: repeat nl k ++ b).
      rewrite replace_cons.
      change (startswith (nl :: nl :: nl :: repeat nl k ++ b) [nl; nl; nl])
        with true.
      cbv iota. simpl List.length. simpl skipn. rewrite Hm. reflexivity.
    + intros _. destruct (Nat.lt_ge_cases k 3) as [Hk|Hk].
      * specialize (Hlt Hk). lia.
      * specialize (Hge Hk). lia.
Qed.

(** Between two texts without newlines, the loop leaves a run of one or
    two newlines alone and makes two of a longer one. *)
Lemma clean_blank_lines_run (a b : str) :
  Forall (fun c => c <> nl) a -> Forall (fun c => c <> nl) b ->
  forall n,
    clean_blank_lines (a ++ repeat nl n ++ b)
    = a ++ repeat nl (Nat.min n 2) ++ b.
Proof.
  intros Ha Hb. induction n as [n IH] using lt_wf_ind.
  destruct (replace_newline_run Hb n) as (m & Hm & Hlt & Hge).
  assert (Hr : replace (a ++ repeat nl n ++ b) [nl; nl; nl] [nl; nl]
               = a ++ repeat nl m ++ b)
    by (rewrite replace_skip by exact Ha; rewrite Hm; reflexivity).
  rewrite clean_blank_lines_step.
  destruct (contains [nl; nl; nl] (a ++ repeat nl n ++ b)) eqn:C.
  - destruct (Nat.lt_ge_cases n 3) as [Hn|Hn].
    + pose proof (@replace_length_lt [nl; nl; nl] [nl; nl]
                    (a ++ repeat nl n ++ b)) as Hlen.
      rewrite Hr, (Hlt Hn) in Hlen. simpl in Hlen.
      specialize (Hlen ltac:(lia) C). lia.
    + specialize (Hge Hn). rewrite Hr, IH by lia.
      replace (Nat.min m 2) with 2 by lia.
      replace (Nat.min n 2) with 2 by lia. reflexivity.
  - destruct (Nat.lt_ge_cases n 3) as [Hn|Hn].
    + replace (Nat.min n 2) with n by lia. reflexivity.
    + apply contains_false_iff in C. exfalso. apply C.
      exists a, (repeat nl (n - 3) ++ b).
      replace n with (3 + (n - 3)) at 1 by lia. reflexivity.
Qed.

Lemma map_hyphenate_plain (s : str) :
  Forall plain s -> List.map hyphenate s = s.
Proof.
  induction 1 as [|c s [_ Hc] _ IH]; [reflexivity|].
  simpl. rewrite Hc, IH. reflexivity.
Qed.

Lemma plain_not_nl (s : str) :
  Forall plain s -> Forall (fun c => c <> nl) s.
Proof. apply Forall_impl. intros c [H _]. exact H. Qed.

Lemma map_hyphenate_newlines (n : nat) :
  List.map hyphenate (repeat nl n) = repeat nl n.
Proof. induction n as [|n IH]; [reflexivity|]. simpl. rewrite IH. reflexivity. Qed.

(** X6. Two paragraphs without newlines and glyphs, the first not
    starting and the second not ending with white space, separated by [n]
    newlines, come out separated by [n] newlines when [n] is at most two
    and by two otherwise: any longer run of blank lines becomes one blank
    line, and nothing else changes. *)
Theorem format_answer_paragraph_break
  (ca cb : char) (a b : str) (n : nat) :
  isspace ca = false -> isspace cb = false ->
  Forall plain (ca :: a) -> Forall plain (b ++ [cb]) ->
  format_answer ((ca :: a) ++ repeat nl n ++ (b ++ [cb]))
  = (ca :: a) ++ repeat nl (Nat.min n 2) ++ (b ++ [cb]).
Proof.
  intros Hca Hcb Ha Hb. rewrite format_answer_unfold.
  rewrite strip_id.
  - rewrite (map_app hyphenate (ca :: a)), (map_app hyphenate (repeat nl n)),
      (map_hyphenate_plain Ha), (map_hyphenate_plain Hb),
      map_hyphenate_newlines.
    apply clean_blank_lines_run; apply plain_not_nl; assumption.
  - split.
    + simpl. rewrite Hca. reflexivity.
    + rewrite !rev_app_distr. simpl. rewrite Hcb. reflexivity.
Qed.

Lemma format_answer_paragraph_break_witness :
  format_answer (lit "Q1. 4" ++ repeat nl 5 ++ lit "Q2. Paris")
  = lit "Q1. 4" ++ repeat nl 2 ++ lit "Q2. Paris".
Proof.
  apply (@format_answer_paragraph_break 0x51%N 0x73%N (lit "1. 4")
           (lit "Q2. Pari") 5).
  - reflexivity.
  - reflexivity.
  - repeat constructor; discriminate.
  - repeat constructor; discriminate.
Defined.

Lemma format_answer_without_blank_run_witness :
  format_answer (lit " a" ++ bullet ++ [nl; nl] ++ lit "b ")
  = List.map hyphenate (strip (lit " a" ++ bullet ++ [nl; nl] ++ lit "b "))
  /\ len (format_answer (lit " a" ++ bullet ++ [nl; nl] ++ lit "b "))
     = len (strip (lit " a" ++ bullet ++ [nl; nl] ++ lit "b ")).
Proof.
  apply format_answer_without_blank_run.
  apply contains_false_iff. vm_compute. reflexivity.
Defined.

(** * More about the handlers *)

(** Case analysis on how the outside calls of a run end. *)
Ltac split_run :=
  repeat match goal with
    | |- context [match ?o with Return _ => _ | Raise _ => _ end] =>
        lazymatch o with
        | context [match _ with _ => _ end] => fail
        | _ => destruct o as [?|?]; cbn [app fst snd negb]
        end
    | |- context [match ?e with Exception _ => _ | BaseException _ => _ end] =>
        is_var e; destruct e; cbn [app fst snd negb]
    | |- context [if ?b then _ else _] =>
        lazymatch b with
        | context [match _ with _ => _ end] => fail
        | negb ?c => destruct c; cbn [app fst snd negb]
        | _ => destruct b; cbn [app fst snd negb]
        end
    end.

Ltac unfold_handlers :=
  unfold run, start, solve_cmd, handle_text, handle_image, handle_image_try,
    try_except, solve_image, solve_text, do_send_chat_action, do_reply_text,
    bind, lift, ret, perform;
  cbv zeta.

(** X10. Whatever the world does, a handler delivers at most one reply
    for an event. *)
Theorem at_most_one_reply
  (w : World) (BOT_USERNAME : str) (update : Update) (context : Context) :
  List.length (replies (snd (run (start w BOT_USERNAME update context)))) <= 1
  /\ List.length (replies (snd (run (solve_cmd w update context)))) <= 1
  /\ List.length
       (replies (snd (run (handle_text w BOT_USERNAME update context)))) <= 1
  /\ List.length (replies (snd (run (handle_image w update context)))) <= 1.
Proof.
  repeat split.
  - unfold_handlers. split_run; simpl; lia.
  - unfold_handlers. destruct (join (lit " ") (args context));
      split_run; simpl; lia.
  - unfold_handlers. split_run; simpl; lia.
  - unfold_handlers. split_run; simpl; lia.
Qed.

(** X11. Whatever the world does, a handler makes at most one request to
    the generative backend for an event, and [start] makes none. *)
Theorem at_most_one_backend_call
  (w : World) (BOT_USERNAME : str) (update : Update) (context : Context) :
  backend_calls (snd (run (start w BOT_USERNAME update context))) = []
  /\ List.length (backend_calls (snd (run (solve_cmd w update context)))) <= 1
  /\ List.length
       (backend_calls
          (snd (run (handle_text w BOT_USERNAME update context)))) <= 1
  /\ List.length
       (backend_calls (snd (run (handle_image w update context)))) <= 1.
Proof.
  repeat split.
  - unfold_handlers. split_run; reflexivity.
  - unfold_handlers. destruct (join (lit " ") (args context));
      split_run; cbn [backend_calls call_of List.length]; lia.
  - unfold_handlers. split_run; cbn [backend_calls call_of List.length]; lia.
  - unfold_handlers. split_run; cbn [backend_calls call_of List.length]; lia.
Qed.

Ltac well_formed_calls :=
  cbn [calls List.map call_of];
  repeat (apply Forall_cons || apply Forall_nil);
  cbn [well_formed_call]; try exact I;
  repeat split; cbn [In]; auto.

(** X12. Every request a handler makes to the backend names the fixed
    model, carries the fixed configuration (4000 output tokens,
    temperature 0.2) and has the master prompt among its contents. *)
Theorem backend_calls_well_formed
  (w : World) (BOT_USERNAME : str) (update : Update) (context : Context) :
  Forall well_formed_call
    (calls (snd (run (start w BOT_USERNAME update context))))
  /\ Forall well_formed_call (calls (snd (run (solve_cmd w update context))))
  /\ Forall well_formed_call
       (calls (snd (run (handle_text w BOT_USERNAME update context))))
  /\ Forall well_formed_call
       (calls (snd (run (handle_image w update context)))).
Proof.
  repeat split.
  - unfold_handlers. split_run; well_formed_calls.
  - unfold_handlers. destruct (join (lit " ") (args context));
      split_run; well_formed_calls.
  - unfold_handlers. split_run; well_formed_calls.
  - unfold_handlers. split_run; well_formed_calls.
Qed.

(** ** Failures in the text flow *)

Lemma solve_cmd_flow (w : World) (update : Update) (context : Context) :
  join (lit " ") (args context) <> [] ->
  solve_cmd w update context
  = answer_flow w (chat_id (effective_chat update))
      (join (lit " ") (args context)).
Proof.
  intros H. unfold solve_cmd.
  destruct (join (lit " ") (args context)); [congruence|reflexivity].
Qed.

Lemma handle_text_flow
  (w : World) (BOT_USERNAME : str) (update : Update) (context : Context)
  (question : str) :
  question_of BOT_USERNAME update = Some question ->
  handle_text w BOT_USERNAME update context
  = answer_flow w (chat_id (effective_chat update)) question.
Proof.
  unfold question_of, handle_text. cbv zeta.
  destruct (in_list _ _); [destruct (contains _ _); cbn [negb]|];
    intros H; try discriminate H; injection H as <-; reflexivity.
Qed.

Lemma answer_flow_typing_raises
  (w : World) (chat : Z) (question : str) (e : exn) :
  on_send_chat_action w [] chat (lit "typing") = Raise e ->
  run (answer_flow w chat question)
  = (Raise e, [Raised (send_chat_action chat (lit "typing")) e]).
Proof.
  intros H. unfold run, answer_flow, do_send_chat_action, bind, perform.
  rewrite H. reflexivity.
Qed.

Lemma answer_flow_backend_raises
  (w : World) (chat : Z) (question : str) (e : exn) :
  typing_returns w chat ->
  on_generate_content w [Returned (send_chat_action chat (lit "typing"))]
    MODEL [Text PROMPT; Text question] config = Raise e ->
  run (answer_flow w chat question)
  = (Raise e, [ Returned (send_chat_action chat (lit "typing"));
                Raised (text_request question) e ]).
Proof.
  unfold typing_returns. intros Ht Hb.
  unfold run, answer_flow, do_send_chat_action, solve_text, bind, perform.
  rewrite Ht. cbn [app]. rewrite Hb. reflexivity.
Qed.

Lemma answer_flow_no_text (w : World) (chat : Z) (question : str) :
  typing_returns w chat ->
  on_generate_content w [Returned (send_chat_action chat (lit "typing"))]
    MODEL [Text PROMPT; Text question] config = Return None ->
  run (answer_flow w chat question)
  = (Raise (Exception "AttributeError"),
     [ Returned (send_chat_action chat (lit "typing"));
       Returned (text_request question) ]).
Proof.
  unfold typing_returns. intros Ht Hb.
  unfold run, answer_flow, do_send_chat_action, solve_text, bind, perform.
  rewrite Ht. cbn [app]. rewrite Hb. reflexivity.
Qed.

(** X7. In the text flow nothing is caught.  When the typing indicator
    call raises, [solve_cmd] (on arguments that join to a text) and
    [handle_text] (on a message it does not ignore) raise the same
    failure at once: the question is not sent to the backend and the user
    gets no reply. *)
Theorem typing_failure_stops_the_answer
  (w : World) (BOT_USERNAME : str) (update : Update) (context : Context)
  (e : exn) :
  on_send_chat_action w [] (chat_id (effective_chat update)) (lit "typing")
  = Raise e ->
  (join (lit " ") (args context) <> [] ->
   run (solve_cmd w update context)
   = (Raise e,
      [Raised (send_chat_action (chat_id (effective_chat update))
                 (lit "typing")) e]))
  /\ (forall question,
      question_of BOT_USERNAME update = Some question ->
      run (handle_text w BOT_USERNAME update context)
      = (Raise e,
         [Raised (send_chat_action (chat_id (effective_chat update))
                    (lit "typing")) e])).
Proof.
  intros H. split.
  - intros Hq. rewrite (solve_cmd_flow _ _ _ Hq).
    apply answer_flow_typing_raises. exact H.
  - intros question Hq. rewrite (@handle_text_flow w _ _ context _ Hq).
    apply answer_flow_typing_raises. exact H.
Qed.

(** X8. When the backend raises in the text flow, [solve_cmd] and
    [handle_text] raise the same failure after the typing indicator and
    the request: the user gets no reply, not even a failure message. *)
Theorem backend_failure_leaves_text_handlers
  (w : World) (BOT_USERNAME : str) (update : Update) (context : Context)
  (question : str) (e : exn) :
  typing_returns w (chat_id (effective_chat update)) ->
  on_generate_content w
    [Returned (send_chat_action (chat_id (effective_chat update))
                 (lit "typing"))]
    MODEL [Text PROMPT; Text question] config = Raise e ->
  (join (lit " ") (args context) = question -> question <> [] ->
   run (solve_cmd w update context)
   = (Raise e,
      [ Returned (send_chat_action (chat_id (effective_chat update))
                    (lit "typing"));
        Raised (text_request question) e ]))
  /\ (question_of BOT_USERNAME update = Some question ->
      run (handle_text w BOT_USERNAME update context)
      = (Raise e,
         [ Returned (send_chat_action (chat_id (effective_chat update))
                       (lit "typing"));
           Raised (text_request question) e ])).
Proof.
  intros Ht Hb. split.
  - intros Hj Hq. subst question. rewrite (solve_cmd_flow _ _ _ Hq).
    apply answer_flow_backend_raises; assumption.
  - intros Hq. rewrite (@handle_text_flow w _ _ context _ Hq).
    apply answer_flow_backend_raises; assumption.
Qed.

(** X9. When the response of the backend has no text, formatting it
    raises [AttributeError]; in the text flow this failure leaves
    [solve_cmd] and [handle_text] and the user gets no reply. *)
Theorem response_without_text_leaves_text_handlers
  (w : World) (BOT_USERNAME : str) (update : Update) (context : Context)
  (question : str) :
  typing_returns w (chat_id (effective_chat update)) ->
  on_generate_content w
    [Returned (send_chat_action (chat_id (effective_chat update))
                 (lit "typing"))]
    MODEL [Text PROMPT; Text question] config = Return None ->
  (join (lit " ") (args context) = question -> question <> [] ->
   run (solve_cmd w update context)
   = (Raise (Exception "AttributeError"),
      [ Returned (send_chat_action (chat_id (effective_chat update))
                    (lit "typing"));
        Returned (text_request question) ]))
  /\ (question_of BOT_USERNAME update = Some question ->
      run (handle_text w BOT_USERNAME update context)
      = (Raise (Exception "AttributeError"),
         [ Returned (send_chat_action (chat_id (effective_chat update))
                       (lit "typing"));
           Returned (text_request question) ])).
Proof.
  intros Ht Hb. split.
  - intros Hj Hq. subst question. rewrite (solve_cmd_flow _ _ _ Hq).
    apply answer_flow_no_text; assumption.
  - intros Hq. rewrite (@handle_text_flow w _ _ context _ Hq).
    apply answer_flow_no_text; assumption.
Qed.

(** ** Photo messages, the image request and the image normalizer *)

(** X13. When every step returns, [handle_image] fetches the last photo
    of the message (the highest resolution), sends its bytes as
    [to_jpeg] returns them in an image request, and delivers the formatted
    answer as the only reply; nothing is printed. *)
Theorem handle_image_answers
  (w : World) (update : Update) (context : Context)
  (smaller : list PhotoSize) (p : PhotoSize) (f : File)
  (img_bytes jpeg : bytes) (ans : str) :
  let chat := chat_id (effective_chat update) in
  let l3 := [ Returned (get_file p); Returned (download_as_bytearray f);
              Returned (send_chat_action chat (lit "typing")) ] in
  photo (message update) = smaller ++ [p] ->
  on_get_file w [] p = Return f ->
  on_download_as_bytearray w [Returned (get_file p)] f = Return img_bytes ->
  on_send_chat_action w
    [Returned (get_file p); Returned (download_as_bytearray f)]
    chat (lit "typing") = Return tt ->
  to_jpeg w img_bytes = Return jpeg ->
  on_generate_content w l3 MODEL
    [from_bytes jpeg (lit "image/jpeg"); Text PROMPT; Text extract_instruction]
    config = Return (Some ans) ->
  on_reply_text w (l3 ++ [Returned (image_request jpeg)]) (format_answer ans)
  = Return tt ->
  run (handle_image w update context)
  = (Return tt,
     l3 ++ [ Returned (image_request jpeg);
             Returned (reply_text (format_answer ans)) ])
  /\ replies (snd (run (handle_image w update context))) = [format_answer ans].
Proof.
  cbv zeta. intros Hp Hf Hd Ht Hj Hg Hr.
  assert (E : run (handle_image w update context)
              = (Return tt,
                 [ Returned (get_file p); Returned (download_as_bytearray f);
                   Returned (send_chat_action (chat_id (effective_chat update))
                               (lit "typing")) ]
                 ++ [ Returned (image_request jpeg);
                      Returned (reply_text (format_answer ans)) ])).
  { unfold_handlers. unfold last_item. rewrite Hp, rev_app_distr. cbn [rev app].
    rewrite Hf. cbn [app]. rewrite Hd. cbn [app]. rewrite Ht. cbn [app].
    rewrite Hj. unfold extract_instruction in Hg. rewrite Hg.
    cbn [app format_answer_of].
    unfold image_request, extract_instruction in Hr. cbn [app] in Hr.
    rewrite Hr. reflexivity. }
  split; [exact E|]. rewrite E. reflexivity.
Qed.

(** X14. On a message without photos, [photo[-1]] raises [IndexError]
    and [handle_image] prints it.  When the print returns, the reply with
    "Image processing failed." is the only other call; when the print
    raises, the reply is never called and the failure of the print leaves
    the handler.  In both cases nothing is fetched and the backend is not
    called. *)
Theorem handle_image_without_photo
  (w : World) (update : Update) (context : Context) :
  photo (message update) = [] ->
  (on_print w [] (lit "IMAGE ERROR:") (Exception "IndexError") = Return tt ->
   calls (snd (run (handle_image w update context)))
   = [ print (lit "IMAGE ERROR:") (Exception "IndexError");
       reply_text (lit "Image processing failed.") ])
  /\ (forall e,
      on_print w [] (lit "IMAGE ERROR:") (Exception "IndexError") = Raise e ->
      run (handle_image w update context)
      = (Raise e,
         [Raised (print (lit "IMAGE ERROR:") (Exception "IndexError")) e]))
  /\ Forall (fun c => c = print (lit "IMAGE ERROR:") (Exception "IndexError")
                      \/ c = reply_text (lit "Image processing failed."))
       (calls (snd (run (handle_image w update context))))
  /\ backend_calls (snd (run (handle_image w update context))) = [].
Proof.
  intros Hp.
  assert (E : run (handle_image w update context)
              = match on_print w [] (lit "IMAGE ERROR:")
                        (Exception "IndexError") with
                | Return _ =>
                    do_reply_text w (lit "Image processing failed.")
                      [printed "IndexError"]
                | Raise e =>
                    (Raise e,
                     [Raised (print (lit "IMAGE ERROR:")
                                (Exception "IndexError")) e])
                end).
  { unfold run, handle_image, handle_image_try, try_except, bind, lift,
      last_item, perform, printed.
    rewrite Hp. cbn [rev app].
    destruct (on_print w [] _ _); reflexivity. }
  rewrite E. unfold do_reply_text, perform, printed.
  repeat split.
  - intros ->. cbv iota. split_run; reflexivity.
  - intros e ->. reflexivity.
  - split_run; cbn [snd calls List.map call_of];
      repeat (apply Forall_cons || apply Forall_nil); auto.
  - split_run; reflexivity.
Qed.

(** X15. Bytes that cannot be decoded are still sent to the backend:
    [solve_image] makes its one request with the bytes it was given,
    labelled image/jpeg. *)
Theorem solve_image_forwards_undecodable (w : World) (img_bytes : bytes) :
  decode_fails w img_bytes ->
  calls (snd (run (solve_image w img_bytes))) = [image_request img_bytes].
Proof.
  intros H. unfold run, solve_image, bind, lift, perform.
  rewrite (to_jpeg_passthrough H). split_run; reflexivity.
Qed.

(** X16. [to_jpeg] never raises an [Exception]: it returns bytes, or lets
    through what is a [BaseException] only. *)
Theorem to_jpeg_raises_no_Exception
  (w : World) (img_bytes : bytes) (what : string) :
  to_jpeg w img_bytes <> Raise (Exception what).
Proof.
  unfold to_jpeg, result_try, result_bind.
  destruct (Image_open w img_bytes) as [img|[?|?]]; try discriminate.
  destruct (Image_convert w img (lit "RGB")) as [rgb|[?|?]]; try discriminate.
  destruct (Image_save w rgb (lit "JPEG")) as [out|[?|?]]; discriminate.
Qed.

(** X17. What is raised in the [try] block and is a [BaseException]
    only (a cancellation, an interrupt) is not caught: it leaves
    [handle_image], nothing is printed and no reply is delivered, not even
    the failure message. *)
Theorem handle_image_lets_base_exception_through
  (w : World) (update : Update) (context : Context)
  (what : string) (l1 : log) :
  run (handle_image_try w update context) = (Raise (BaseException what), l1) ->
  run (handle_image w update context) = (Raise (BaseException what), l1)
  /\ replies (snd (run (handle_image w update context))) = [].
Proof.
  intros Htry.
  assert (E : run (handle_image w update context)
              = (Raise (BaseException what), l1)).
  { unfold run, handle_image, try_except. unfold run in Htry.
    rewrite Htry. reflexivity. }
  split; [exact E|]. rewrite E. cbn [snd].
  exact (handle_image_try_no_reply _ _ _ Htry).
Qed.

(** X18. [start] makes one call, a reply whose text names the mention
    ["@"] followed by the handle. *)
Theorem start_names_the_mention
  (w : World) (BOT_USERNAME : str) (update : Update) (context : Context) :
  exists msg,
    calls (snd (run (start w BOT_USERNAME update context))) = [reply_text msg]
    /\ substring (lit "@" ++ BOT_USERNAME) msg.
Proof.
  eexists. split.
  - unfold_handlers. split_run; reflexivity.
  - exists (lit "Send text or image of your question paper." ++ [nl]
            ++ lit "In groups: mention me "), (lit " or use /solve.").
    rewrite <- !app_assoc. reflexivity.
Qed.

(** ** Edges of the text handlers *)

Lemma lstrip_blank (s : str) : blank s -> lstrip s = [].
Proof.
  induction 1 as [|c s Hc _ IH]; [reflexivity|]. simpl. rewrite Hc. exact IH.
Qed.

Lemma strip_blank (s : str) : blank s -> strip s = [].
Proof. intros H. unfold strip. rewrite (lstrip_blank H). reflexivity. Qed.

Lemma blank_without (o : char) (s : str) :
  isspace o = false -> blank s -> Forall (fun c => c <> o) s.
Proof.
  intros Ho. apply Forall_impl. intros c Hc ->. rewrite Ho in Hc.
  discriminate Hc.
Qed.

(** X19. In a group, a message that is only the mention, with white
    space around it or not, is not ignored: its question is the empty
    text, and this is what the backend is asked. *)
Theorem handle_text_mention_only
  (w : World) (BOT_USERNAME : str) (update : Update) (context : Context)
  (pre post : str) :
  is_group (chat (message update)) ->
  text (message update) = Some (pre ++ (lit "@" ++ BOT_USERNAME) ++ post) ->
  blank pre -> blank post ->
  question_of BOT_USERNAME update = Some []
  /\ (typing_returns w (chat_id (effective_chat update)) ->
      backend_calls (snd (run (handle_text w BOT_USERNAME update context)))
      = [[Text PROMPT; Text []]]).
Proof.
  intros Hg Htext Hpre Hpost.
  assert (Hq : question_of BOT_USERNAME update = Some []).
  { unfold question_of. cbv zeta. apply in_list_groups in Hg. rewrite Hg.
    rewrite Htext. cbn [or_empty]. unfold mention.
    replace (contains (lit "@" ++ BOT_USERNAME)
               (pre ++ (lit "@" ++ BOT_USERNAME) ++ post)) with true
      by (symmetry; apply contains_iff; exists pre, post; reflexivity).
    cbn [negb]. f_equal.
    change (lit "@" ++ BOT_USERNAME) with (0x40%N :: BOT_USERNAME).
    rewrite replace_skip by (apply blank_without; [reflexivity|exact Hpre]).
    change ((0x40%N :: BOT_USERNAME) ++ post)
      with (0x40%N :: BOT_USERNAME ++ post).
    rewrite replace_cons.
    replace (startswith (0x40%N :: BOT_USERNAME ++ post)
               (0x40%N :: BOT_USERNAME)) with true
      by (symmetry; apply startswith_iff; exists post; reflexivity).
    rewrite skipn_app, skipn_all, Nat.sub_diag. cbn [app skipn].
    rewrite <- (app_nil_r post) at 1.
    rewrite replace_skip by (apply blank_without; [reflexivity|exact Hpost]).
    rewrite replace_nil, app_nil_r. apply strip_blank.
    apply Forall_app. split; assumption. }
  split; [exact Hq|].
  rewrite (@handle_text_flow w _ _ context _ Hq). apply answer_flow_once.
Qed.

Lemma join_nil_iff (sep : str) (xs : list str) :
  sep <> [] -> join sep xs = [] <-> xs = [] \/ xs = [[]].
Proof.
  intros Hsep. split.
  - destruct xs as [|x [|y xs]]; [left; reflexivity| |].
    + simpl. intros ->. right. reflexivity.
    + rewrite join_cons by discriminate. intros H.
      apply app_eq_nil in H as [_ H]. apply app_eq_nil in H as [H _].
      congruence.
  - intros [->| ->]; reflexivity.
Qed.

(** X20. [solve_cmd] answers with the usage message, and nothing else,
    exactly when there are no arguments or the only argument is the empty
    text: the test is on the joined text.  Otherwise its first call is
    the typing indicator. *)
Theorem solve_cmd_usage_iff
  (w : World) (update : Update) (context : Context) :
  (calls (snd (run (solve_cmd w update context)))
   = [reply_text (lit "Usage: /solve <questions>")]
   <-> args context = [] \/ args context = [[]])
  /\ (~ (args context = [] \/ args context = [[]]) ->
      hd_error (calls (snd (run (solve_cmd w update context))))
      = Some (send_chat_action (chat_id (effective_chat update))
                (lit "typing"))).
Proof.
  rewrite <- (@join_nil_iff (lit " ")) by discriminate.
  assert (Hflow : join (lit " ") (args context) <> [] ->
                  hd_error (calls (snd (run (solve_cmd w update context))))
                  = Some (send_chat_action (chat_id (effective_chat update))
                            (lit "typing"))).
  { intros Hq. rewrite (solve_cmd_flow w update context Hq).
    apply answer_flow_starts. }
  split; [split|exact Hflow].
  - intros H. destruct (join (lit " ") (args context)) as [|c q] eqn:E;
      [reflexivity|].
    rewrite <- E in Hflow. rewrite H in Hflow.
    specialize (Hflow ltac:(rewrite E; discriminate)). discriminate Hflow.
  - intros E. unfold solve_cmd. rewrite E.
    unfold run, do_reply_text, perform.
    destruct (on_reply_text w [] _); reflexivity.
Qed.

(** * The further theorems at concrete events *)

Lemma typing_failure_stops_the_answer_witness :
  run (solve_cmd
         (Failures.world (Raise (Exception "TimedOut"))
            (Return (Some (lit "4"))) (Return {| file_path := [] |})
            (Return tt))
         (text_update group_chat (lit "/solve 2+2?"))
         {| args := [lit "2+2?"] |})
  = (Raise (Exception "TimedOut"),
     [Raised (send_chat_action (-1001) (lit "typing"))
        (Exception "TimedOut")])
  /\ run (handle_text
            (Failures.world (Raise (Exception "TimedOut"))
               (Return (Some (lit "4"))) (Return {| file_path := [] |})
               (Return tt))
            (lit "mybot") (text_update group_chat (lit "@mybot 2+2?"))
            no_args)
     = (Raise (Exception "TimedOut"),
        [Raised (send_chat_action (-1001) (lit "typing"))
           (Exception "TimedOut")]).
Proof.
  split.
  - refine (proj1 (@typing_failure_stops_the_answer _ (lit "mybot")
                     (text_update group_chat (lit "/solve 2+2?"))
                     {| args := [lit "2+2?"] |} _ _) _).
    + reflexivity.
    + discriminate.
  - refine (proj2 (@typing_failure_stops_the_answer _ (lit "mybot")
                     (text_update group_chat (lit "@mybot 2+2?"))
                     no_args _ _) (lit "2+2?") _).
    + reflexivity.
    + reflexivity.
Defined.

Lemma backend_failure_leaves_text_handlers_witness :
  run (solve_cmd
         (Failures.world (Return tt) (Raise (Exception "ServerError"))
            (Return {| file_path := [] |}) (Return tt))
         (text_update private_chat (lit "/solve 2+2?"))
         {| args := [lit "2+2?"] |})
  = (Raise (Exception "ServerError"),
     [ Returned (send_chat_action 42 (lit "typing"));
       Raised (text_request (lit "2+2?")) (Exception "ServerError") ])
  /\ run (handle_text
            (Failures.world (Return tt) (Raise (Exception "ServerError"))
               (Return {| file_path := [] |}) (Return tt))
            (lit "mybot") (text_update private_chat (lit "2+2?")) no_args)
     = (Raise (Exception "ServerError"),
        [ Returned (send_chat_action 42 (lit "typing"));
          Raised (text_request (lit "2+2?")) (Exception "ServerError") ]).
Proof.
  split.
  - refine (proj1 (@backend_failure_leaves_text_handlers _ (lit "mybot")
                     (text_update private_chat (lit "/solve 2+2?"))
                     {| args := [lit "2+2?"] |} (lit "2+2?") _ _ _) _ _).
    + reflexivity.
    + reflexivity.
    + reflexivity.
    + discriminate.
  - refine (proj2 (@backend_failure_leaves_text_handlers _ (lit "mybot")
                     (text_update private_chat (lit "2+2?"))
                     no_args (lit "2+2?") _ _ _) _).
    + reflexivity.
    + reflexivity.
    + reflexivity.
Defined.

Lemma response_without_text_leaves_text_handlers_witness :
  run (solve_cmd
         (Failures.world (Return tt) (Return None)
            (Return {| file_path := [] |}) (Return tt))
         (text_update private_chat (lit "/solve 2+2?"))
         {| args := [lit "2+2?"] |})
  = (Raise (Exception "AttributeError"),
     [ Returned (send_chat_action 42 (lit "typing"));
       Returned (text_request (lit "2+2?")) ])
  /\ run (handle_text
            (Failures.world (Return tt) (Return None)
               (Return {| file_path := [] |}) (Return tt))
            (lit "mybot") (text_update private_chat (lit "2+2?")) no_args)
     = (Raise (Exception "AttributeError"),
        [ Returned (send_chat_action 42 (lit "typing"));
          Returned (text_request (lit "2+2?")) ]).
Proof.
  split.
  - refine (proj1 (@response_without_text_leaves_text_handlers _ (lit "mybot")
                     (text_update private_chat (lit "/solve 2+2?"))
                     {| args := [lit "2+2?"] |} (lit "2+2?") _ _) _ _).
    + reflexivity.
    + reflexivity.
    + reflexivity.
    + discriminate.
  - refine (proj2 (@response_without_text_leaves_text_handlers _ (lit "mybot")
                     (text_update private_chat (lit "2+2?"))
                     no_args (lit "2+2?") _ _) _).
    + reflexivity.
    + reflexivity.
    + reflexivity.
Defined.

Lemma handle_image_answers_witness :
  run (handle_image (world delivered (Some (lit " 4 ")))
         (photo_update private_chat) no_args)
  = (Return tt,
     [ Returned (get_file {| file_id := lit "large" |});
       Returned (download_as_bytearray {| file_path := lit "large" |});
       Returned (send_chat_action 42 (lit "typing")) ]
     ++ [ Returned (image_request (Byte.xff :: Byte.xd8 :: png));
          Returned (reply_text (format_answer (lit " 4 "))) ])
  /\ replies (snd (run (handle_image (world delivered (Some (lit " 4 ")))
                          (photo_update private_chat) no_args)))
     = [format_answer (lit " 4 ")].
Proof.
  apply (@handle_image_answers (world delivered (Some (lit " 4 ")))
           (photo_update private_chat) no_args
           [ {| file_id := lit "small" |} ] {| file_id := lit "large" |}
           {| file_path := lit "large" |} png
           (Byte.xff :: Byte.xd8 :: png) (lit " 4 "));
    reflexivity.
Defined.

Lemma handle_image_without_photo_witness :
  calls (snd (run (handle_image (world delivered (Some (lit "4")))
                     (text_update private_chat (lit "hello")) no_args)))
  = [ print (lit "IMAGE ERROR:") (Exception "IndexError");
      reply_text (lit "Image processing failed.") ]
  /\ run (handle_image
            (Failures.with_print (Raise (Exception "UnicodeEncodeError"))
               (world delivered (Some (lit "4"))))
            (text_update private_chat (lit "hello")) no_args)
     = (Raise (Exception "UnicodeEncodeError"),
        [Raised (print (lit "IMAGE ERROR:") (Exception "IndexError"))
           (Exception "UnicodeEncodeError")]).
Proof.
  split.
  - refine (proj1 (@handle_image_without_photo
                     (world delivered (Some (lit "4")))
                     (text_update private_chat (lit "hello")) no_args _) _).
    + reflexivity.
    + reflexivity.
  - refine (proj1 (proj2 (@handle_image_without_photo
                            (Failures.with_print
                               (Raise (Exception "UnicodeEncodeError"))
                               (world delivered (Some (lit "4"))))
                            (text_update private_chat (lit "hello"))
                            no_args _)) _ _).
    + reflexivity.
    + reflexivity.
Defined.

Lemma solve_image_forwards_undecodable_witness :
  calls (snd (run (solve_image (world delivered (Some (lit "4")))
                     not_an_image)))
  = [image_request not_an_image].
Proof.
  apply solve_image_forwards_undecodable.
  apply open_fails with (what := "UnidentifiedImageError"%string).
  reflexivity.
Defined.

(** A cancelled file lookup is not caught: no failure message is sent. *)
Lemma handle_image_lets_base_exception_through_witness :
  run (handle_image
         (Failures.world (Return tt) (Return (Some (lit "4")))
            (Raise (BaseException "CancelledError")) (Return tt))
         (photo_update private_chat) no_args)
  = (Raise (BaseException "CancelledError"),
     [Raised (get_file {| file_id := lit "large" |})
        (BaseException "CancelledError")])
  /\ replies
       (snd (run (handle_image
                    (Failures.world (Return tt) (Return (Some (lit "4")))
                       (Raise (BaseException "CancelledError")) (Return tt))
                    (photo_update private_chat) no_args)))
     = [].
Proof.
  apply (@handle_image_lets_base_exception_through
           (Failures.world (Return tt) (Return (Some (lit "4")))
              (Raise (BaseException "CancelledError")) (Return tt))
           (photo_update private_chat) no_args "CancelledError").
  reflexivity.
Defined.

Lemma handle_text_mention_only_witness :
  question_of (lit "mybot") (text_update group_chat (lit " @mybot ")) = Some []
  /\ (typing_returns (world delivered (Some (lit "4"))) (-1001) ->
      backend_calls
        (snd (run (handle_text (world delivered (Some (lit "4")))
                     (lit "mybot")
                     (text_update group_chat (lit " @mybot ")) no_args)))
      = [[Text PROMPT; Text []]]).
Proof.
  apply (@handle_text_mention_only (world delivered (Some (lit "4")))
           (lit "mybot") (text_update group_chat (lit " @mybot ")) no_args
           (lit " ") (lit " ")).
  - left. reflexivity.
  - reflexivity.
  - repeat constructor.
  - repeat constructor.
Defined.
